(** * DataForge: the world registry, traits, operations with subscribers,
    and draft-based mutation, with the signed-multiset delta algebra.

  The development follows the TypeScript sources of the repository:
  the functional-style implementation (createWorld, defineTrait,
  applyTrait, createOperation, on, createDraftHandler, mutate) is embedded
  function by function; the delta algebra, which the sources do not
  contain, is modelled from the design document. *)

From stdpp Require Import base option list gmap fin_maps fin_map_dom strings.
From Stdlib Require Import ZArith Lia Floats.

Local Open Scope Z_scope.

(* ===================================================================== *)
(** * Part I. Definitions                                                  *)
(* ===================================================================== *)

(** ** Delta model *)

Module Delta.
Section Defs.
Context {K : Type} `{Countable K}.

(** Modelled from the spec: the repository has no Delta type.  A delta is
    "a finite mapping from a value of type T (or a stable identity key) to
    a signed integer weight"; the weight of a key that is not materialised
    is 0.  Weights are unbounded integers: the delta layer "is total and
    pure; it never rejects input". *)
Definition weight (d : gmap K Z) (k : K) : Z := default 0 (d !! k).

(** Modelled from the spec: "weight 0 entries are never materialized
    (they are removed immediately)". *)
Definition materialize (w : Z) : option Z :=
  if decide (w = 0) then None else Some w.

(** Modelled from the spec: the invariant of the data model ("is present"
    means weight other than 0), as a predicate on a raw map. *)
Definition wellFormed (d : gmap K Z) : Prop := ∀ k, d !! k ≠ Some 0.

(** Modelled from the spec: "combine(d1, d2) -> d3: pointwise addition of
    weights over the union of keys; removes zero-weight keys". *)
Definition combine (d1 d2 : gmap K Z) : gmap K Z :=
  merge (λ a b, materialize (default 0 a + default 0 b)) d1 d2.

(** Modelled from the spec: "negate(d) -> d': flips all weights' sign". *)
Definition negate (d : gmap K Z) : gmap K Z := Z.opp <$> d.

(** Modelled from the spec: "isEmpty(d): true iff no keys have nonzero
    weight". *)
Definition isEmpty (d : gmap K Z) : bool :=
  bool_decide (map_Forall (λ _ w, w = 0) d).
End Defs.
End Delta.

(** ** Runtime values *)

Module JS.

(** Object identity: a location in the object store. *)
Definition loc := nat.

(** A JavaScript value.  Numbers are IEEE binary64 floats; objects, arrays
    and functions are references into the object store. *)
Inductive Value :=
| VUndefined
| VNull
| VBool (b : bool)
| VNumber (n : float)
| VString (s : string)
| VRef (a : loc).

(** The strict equality [===]: no coercion; numbers compare as floats (NaN
    differs from itself, the two zeros are equal); references compare by
    identity. *)
Definition strict_eq (x y : Value) : bool :=
  match x, y with
  | VUndefined, VUndefined => true
  | VNull, VNull => true
  | VBool a, VBool b => bool_decide (a = b)
  | VNumber a, VNumber b => PrimFloat.eqb a b
  | VString a, VString b => bool_decide (a = b)
  | VRef a, VRef b => bool_decide (a = b)
  | _, _ => false
  end.

(** The strict inequality [!==]. *)
Definition strict_neq (x y : Value) : bool := negb (strict_eq x y).

(** [PrimitiveType]: the keys of [PrimitiveTypeMap]. *)
Inductive PrimitiveType := PString | PNumber | PBoolean | PDate | PAny.

(** What a call can throw: the [Error]s that the module itself raises (one
    constructor per message), the language's [TypeError], and whatever user
    code throws. *)
Inductive Exn :=
| TraitNotFound (traitName : string)
| TraitNotApplicable (traitName : string) (primitiveType : PrimitiveType)
| MissingRequiredParameter (param traitName : string)
| TraitRequiresParameters (traitName : string) (requiredParams : list string)
| TypeError
| UserException (v : Value).

(** The completion of a call: a normal return or a throw. *)
Inductive Outcome (A : Type) :=
| Returns (a : A)
| Throws (e : Exn).
Global Arguments Returns {A} a.
Global Arguments Throws {A} e.

End JS.

(** ** The world and its catalogues *)

Module Forge.
Import JS.

#[global] Instance PrimitiveType_eq_dec : EqDecision PrimitiveType.
Proof. solve_decision. Defined.

Inductive ExecutionLocation := Client | Server | Database.

Record OperationProperties := {
  associative : option bool;
  commutative : option bool;
  idempotent : option bool;
  deterministic : option bool;
  pure : option bool;
  conflictFree : option bool;
  locations : option (list ExecutionLocation)
}.

Record StorageLocation := {
  sl_type : string;
  sl_connection : string;
  sl_name : option string
}.

(** [Record<string, unknown>]: the parameter object of a trait, as the map
    of its own properties.  The object is a plain one, as an object literal
    gives: its prototype is [Object.prototype]. *)
Abbreviation Params := (gmap string Value).

(** The property names that every plain object inherits from
    [Object.prototype]. *)
Definition objectPrototypeNames : list string :=
  [ "constructor"; "hasOwnProperty"; "isPrototypeOf"; "propertyIsEnumerable";
    "toLocaleString"; "toString"; "valueOf"; "__proto__";
    "__defineGetter__"; "__defineSetter__"; "__lookupGetter__";
    "__lookupSetter__" ].

(** [name in parameters]: an own property of the object, or a name that it
    inherits. *)
Definition hasProperty (parameters : Params) (name : string) : bool :=
  bool_decide (is_Some (parameters !! name))
  || bool_decide (name ∈ objectPrototypeNames).

Record TraitImplementation := {
  ti_validation : option (Value → bool);
  ti_errorMessage : option string;
  ti_rest : gmap string Value
}.

Record TraitDefinition := {
  td_name : string;
  td_appliesTo : list PrimitiveType;
  td_parameters : option (list string);
  td_implementation : Params → Outcome TraitImplementation
}.

Record TraitInstance := {
  inst_definition : TraitDefinition;
  inst_parameters : Params;
  inst_implementation : TraitImplementation
}.

Record Cell := {
  cell_name : string;
  cell_primitiveType : PrimitiveType;
  cell_version : float;
  cell_validation : option (Value → bool);
  cell_errorMessage : option string;
  cell_traits : gmap string TraitInstance
}.

Record Column := {
  col_name : string;
  col_cell : Cell;
  col_constraints : list string;
  col_type : option string;
  col_primaryKey : option bool
}.

Record Row := {
  row_name : string;
  row_version : float;
  row_columns : gmap string Column;
  row_storageLocation : option string
}.

Record PropertyTransforms := {
  fromColumn : option (Value → Value);
  toColumn : option (Value → Value)
}.

Record Property := {
  prop_column : Column;
  prop_transforms : option PropertyTransforms;
  prop_validation : option (Value → bool);
  prop_errorMessage : option string
}.

Record Entity := {
  ent_row : Row;
  ent_properties : gmap string (Property + string);
  ent_methods : option (gmap string Value)
}.

Inductive OperationType := Producer | Mutator | Filter.

Record ReversableWith := {
  rev_operation : string;
  rev_inputs : list string
}.

Record Operation := {
  op_name : string;
  op_version : float;
  op_type : option OperationType;
  op_inputs : list Cell;
  op_output : Cell;
  op_operation : list Value → Outcome Value;
  op_properties : OperationProperties;
  op_reversableWith : option ReversableWith;
  op_databaseImplementation : option (gmap string (list Value → Outcome Value))
}.

(** The catalogues are plain objects, kept as the maps of their own
    properties.  [traitsPrototype] is the prototype of the trait catalogue
    when it is no longer [Object.prototype]: the assignment
    [world.traits[trait.name] = trait] of [createWorld] with the name
    [__proto__] runs the inherited setter, which makes the trait the
    prototype of the catalogue and adds no property to it. *)
Record World := {
  storageLocations : list StorageLocation;
  traits : gmap string TraitDefinition;
  traitsPrototype : option TraitDefinition;
  cells : gmap string Cell;
  columns : gmap string Column;
  rows : gmap string Row;
  properties : gmap string Property;
  entities : gmap string Entity;
  operations : gmap string Operation
}.

(** The assignment [world.traits[trait.name] = trait] on the trait
    catalogue (own properties, prototype): under the name [__proto__] it
    replaces the prototype, under any other name it sets an own property. *)
Definition assignTrait
    (catalogue : gmap string TraitDefinition * option TraitDefinition)
    (trait : TraitDefinition)
    : gmap string TraitDefinition * option TraitDefinition :=
  if bool_decide (td_name trait = "__proto__")
  then (catalogue.1, Some trait)
  else (<[td_name trait := trait]> catalogue.1, catalogue.2).

(** [createWorld]: every catalogue starts empty; the initial traits are
    assigned under their names one after the other, a later one replacing
    an earlier namesake. *)
Definition createWorld (storage : list StorageLocation)
    (initialTraits : option (list TraitDefinition)) : World :=
  let catalogue :=
    match initialTraits with
    | Some ts => foldl assignTrait (∅, None) ts
    | None => (∅, None)
    end in
  {| storageLocations := storage;
     traits := catalogue.1;
     traitsPrototype := catalogue.2;
     cells := ∅; columns := ∅; rows := ∅; properties := ∅;
     entities := ∅; operations := ∅ |}.

(** [defineTrait] returns a copy of the world whose trait catalogue holds
    the definition under its name.  The new catalogue is an object literal:
    the spread copies the own properties of the old one, the computed key
    defines an own property whatever the name is, and the prototype is
    [Object.prototype]. *)
Definition defineTrait (world : World) (definition : TraitDefinition) : World :=
  {| storageLocations := storageLocations world;
     traits := <[td_name definition := definition]> (traits world);
     traitsPrototype := None;
     cells := cells world; columns := columns world; rows := rows world;
     properties := properties world; entities := entities world;
     operations := operations world |}.

(** What [world.traits[traitName]] evaluates to, as far as [applyTrait]
    tells values apart: a trait definition; another truthy value found
    along the prototype chain (a function, an array, a non-empty string or
    [Object.prototype] itself); or a falsy value ([undefined], or an empty
    string). *)
Inductive Looked :=
| Found (trait : TraitDefinition)
| Inherited
| Absent.

(** [world.traits[traitName]]: the own property if there is one; otherwise
    what the prototype chain gives.  Below a catalogue whose prototype is
    [Object.prototype] the chain holds the names of [objectPrototypeNames],
    all truthy.  Below a catalogue whose prototype is a trait definition
    (see [traitsPrototype]) the getter of [__proto__] returns that
    definition, and the properties [name], [appliesTo], [parameters] (when
    declared) and [implementation] of the definition come before those of
    [Object.prototype]. *)
Definition lookupTrait (world : World) (traitName : string) : Looked :=
  match traits world !! traitName with
  | Some trait => Found trait
  | None =>
      match traitsPrototype world with
      | Some prototype =>
          if bool_decide (traitName = "__proto__") then Found prototype
          else if bool_decide (traitName = "name")
          then (if bool_decide (td_name prototype = "") then Absent
                else Inherited)
          else if bool_decide (traitName ∈ ["appliesTo"; "implementation"])
          then Inherited
          else if bool_decide (traitName = "parameters")
          then match td_parameters prototype with
               | Some _ => Inherited
               | None => Absent
               end
          else if bool_decide (traitName ∈ objectPrototypeNames)
          then Inherited
          else Absent
      | None =>
          if bool_decide (traitName ∈ objectPrototypeNames)
          then Inherited
          else Absent
      end
  end.

(** The loop [for (const param of requiredParams) if (!(param in parameters))
    throw ...]: the first required parameter that is not in the object. *)
Fixpoint firstMissing (requiredParams : list string) (parameters : Params)
    : option string :=
  match requiredParams with
  | [] => None
  | param :: rest =>
      if hasProperty parameters param
      then firstMissing rest parameters
      else Some param
  end.

(** [new Set(iterable)]: the elements in insertion order, an element that is
    already present being skipped. *)
Definition setOf (l : list string) : list string :=
  foldl (λ acc x, if bool_decide (x ∈ acc) then acc else acc ++ [x]) [] l.

(** The parameter validation of [applyTrait]: [None] when nothing is thrown. *)
Definition checkParameters (traitName : string) (trait : TraitDefinition)
    (parameters : option Params) : option Exn :=
  match td_parameters trait with
  | None => None
  | Some declared =>
      let requiredParams := setOf declared in
      match parameters with
      | Some ps =>
          match firstMissing requiredParams ps with
          | Some param => Some (MissingRequiredParameter param traitName)
          | None => None
          end
      | None =>
          if bool_decide (0 < length requiredParams)%nat
          then Some (TraitRequiresParameters traitName requiredParams)
          else None
      end
  end.

(** [applyTrait]: looks the trait up by name, checks that it applies to the
    cell's primitive type and that its required parameters are supplied,
    calls the implementation function of the trait on the parameter object
    (an empty object when there is none) and returns a copy of the cell
    whose trait map has one more entry.  A value that is no trait definition
    has no [appliesTo]: [trait.appliesTo.includes] is then a [TypeError].
    What the implementation function throws leaves [applyTrait] as it is. *)
Definition applyTrait (world : World) (cell : Cell) (traitName : string)
    (parameters : option Params) : Outcome Cell :=
  match lookupTrait world traitName with
  | Absent => Throws (TraitNotFound traitName)
  | Inherited => Throws TypeError
  | Found trait =>
      if negb (bool_decide (cell_primitiveType cell ∈ td_appliesTo trait))
      then Throws (TraitNotApplicable traitName (cell_primitiveType cell))
      else
        match checkParameters traitName trait parameters with
        | Some e => Throws e
        | None =>
            match td_implementation trait (default ∅ parameters) with
            | Throws e => Throws e
            | Returns implementation =>
                let updatedCell :=
                  {| cell_name := cell_name cell;
                     cell_primitiveType := cell_primitiveType cell;
                     cell_version := cell_version cell;
                     cell_validation := cell_validation cell;
                     cell_errorMessage := cell_errorMessage cell;
                     cell_traits :=
                       <[traitName :=
                           {| inst_definition := trait;
                              inst_parameters := default ∅ parameters;
                              inst_implementation := implementation |}]>
                         (cell_traits cell) |} in
                Returns updatedCell
            end
        end
  end.

(** The entry that [applyTrait] adds to the trait map of the cell, given
    what the implementation function returned. *)
Definition traitInstance (trait : TraitDefinition) (parameters : option Params)
    (implementation : TraitImplementation) : TraitInstance :=
  {| inst_definition := trait;
     inst_parameters := default ∅ parameters;
     inst_implementation := implementation |}.

(** The caller supplied what the trait requires: every declared parameter is
    a property of the parameter object, or nothing is declared. *)
Definition parametersSupplied (trait : TraitDefinition)
    (parameters : option Params) : Prop :=
  match td_parameters trait, parameters with
  | None, _ => True
  | Some declared, Some ps => ∀ param, param ∈ declared → is_Some (ps !! param)
  | Some declared, None => declared = []
  end.

(** The parameter check of [applyTrait] lets the call through: every
    declared parameter is in the parameter object, as an own property or as
    an inherited name, or nothing is declared. *)
Definition parametersAccepted (trait : TraitDefinition)
    (parameters : option Params) : Prop :=
  match td_parameters trait, parameters with
  | None, _ => True
  | Some declared, Some ps =>
      ∀ param, param ∈ declared → hasProperty ps param = true
  | Some declared, None => declared = []
  end.

(** Cells as objects: a store from locations to cells.  [applyTrait] reads
    the cell it is given and allocates its result; it has no assignment to
    an existing object. *)
Definition applyTraitAt (world : World) (store : gmap loc Cell) (c : loc)
    (traitName : string) (parameters : option Params)
    : option (Outcome loc * gmap loc Cell) :=
  cell ← store !! c;
  Some match applyTrait world cell traitName parameters with
       | Throws e => (Throws e, store)
       | Returns updatedCell =>
           let fresh_loc := fresh (dom store) in
           (Returns fresh_loc, <[fresh_loc := updatedCell]> store)
       end.

(** The local [updatedWorld] of [createOperation]: a copy of the world whose
    operation catalogue holds the operation under its name. *)
Definition updatedWorld (world : World) (operation : Operation) : World :=
  {| storageLocations := storageLocations world;
     traits := traits world; traitsPrototype := traitsPrototype world;
     cells := cells world; columns := columns world;
     rows := rows world; properties := properties world;
     entities := entities world;
     operations := <[op_name operation := operation]> (operations world) |}.

(** [createOperation]: copies the definition, builds [updatedWorld], and
    returns the operation.  The second component is the world as the caller
    holds it after the call: the body assigns to no object it was given, and
    [updatedWorld] is neither returned nor stored. *)
Definition createOperation (world : World) (definition : Operation)
    : Outcome Operation * World :=
  let operation := definition in
  let _ := updatedWorld world operation in
  (Returns operation, world).

End Forge.

(** ** Operations with subscribers *)

Module Bus.
Import JS Forge.

(** A handler is a function object; [indexOf] compares function objects by
    identity, which is this identifier. *)
Definition HandlerId := nat.

(** What a running handler may do to the subscription list of the operation
    that notifies it: call [subscribe] with a handler, or call an unsubscribe
    function that [subscribe] returned for a handler. *)
Inductive BusCall :=
| CallSubscribe (h : HandlerId)
| CallUnsubscribe (h : HandlerId).

(** One run of a handler: the calls it makes on the subscription list, in
    order, and then its completion.  Calls of the operation function from
    inside a handler are not part of this model. *)
Record HandlerRun := {
  run_calls : list BusCall;
  run_completion : Outcome unit
}.

(** A notification: the handler that was called and the arguments it got. *)
Definition Notification : Type := HandlerId * list Value.

(** The state that the two closures returned by [on] share, with the two
    observable traces: the calls of handlers and the [console.error] calls. *)
Record BusState := {
  subscribers : list HandlerId;
  notified : list Notification;
  consoleErrors : list Exn
}.

(** [subscribers.indexOf(handler)]. *)
Fixpoint indexOf (handler : HandlerId) (l : list HandlerId) : option nat :=
  match l with
  | [] => None
  | x :: rest =>
      if bool_decide (x = handler) then Some 0%nat
      else S <$> indexOf handler rest
  end.

(** [subscribers.splice(index, 1)]. *)
Definition splice1 (index : nat) (l : list HandlerId) : list HandlerId :=
  take index l ++ drop (S index) l.

(** [subscribe]: [subscribers.push(handler)]. *)
Definition subscribe (handler : HandlerId) (l : list HandlerId)
    : list HandlerId :=
  l ++ [handler].

(** The function that [subscribe] returns: removes the first entry that is
    the handler, if there is one. *)
Definition unsubscribe (handler : HandlerId) (l : list HandlerId)
    : list HandlerId :=
  match indexOf handler l with
  | Some index => splice1 index l
  | None => l
  end.

Definition applyCall (l : list HandlerId) (c : BusCall) : list HandlerId :=
  match c with
  | CallSubscribe h => subscribe h l
  | CallUnsubscribe h => unsubscribe h l
  end.

(** The handlers that a run subscribes, in the order of its calls. *)
Definition subscribedBy (calls : list BusCall) : list HandlerId :=
  omap (λ c, match c with
             | CallSubscribe h => Some h
             | CallUnsubscribe _ => None
             end) calls.

Section On.
(** The bodies of the handler functions. *)
Variable handlers : HandlerId → list Value → HandlerRun.

(** The callback of the [forEach]: [try { handler(...args) } catch (error)
    { console.error(..., error) }]. *)
Definition notify (handler : HandlerId) (args : list Value) (st : BusState)
    : BusState :=
  let run := handlers handler args in
  {| subscribers := foldl applyCall (subscribers st) (run_calls run);
     notified := notified st ++ [(handler, args)];
     consoleErrors :=
       match run_completion run with
       | Throws error => consoleErrors st ++ [error]
       | Returns _ => consoleErrors st
       end |}.

(** [Array.prototype.forEach] from index [k]: the length is read once, before
    the first call ([remaining] counts the indices still to visit); at each
    index the element is read from the array as it is then, and an index
    that the array no longer has is passed over. *)
Fixpoint forEachFrom (remaining k : nat) (args : list Value) (st : BusState)
    : BusState :=
  match remaining with
  | O => st
  | S remaining' =>
      match subscribers st !! k with
      | Some handler =>
          forEachFrom remaining' (S k) args (notify handler args st)
      | None => forEachFrom remaining' (S k) args st
      end
  end.

Definition forEach (args : list Value) (st : BusState) : BusState :=
  forEachFrom (length (subscribers st)) 0 args st.

(** [operationFn]: runs the operation, then notifies the subscribers, then
    returns the result.  A throw of the operation itself leaves the function
    before any handler is called.  The operation computes its result from
    the arguments and calls none of [operationFn], [subscribe] and the
    unsubscribe functions. *)
Definition operationFn (operation : Operation) (args : list Value)
    (st : BusState) : Outcome Value * BusState :=
  match op_operation operation args with
  | Throws e => (Throws e, st)
  | Returns result => (Returns result, forEach args st)
  end.

(** [on]: the state of a fresh pair [operationFn, subscribe]. *)
Definition on (world : World) (operation : Operation) : BusState :=
  {| subscribers := []; notified := []; consoleErrors := [] |}.

(** What a client does with the pair returned by [on]. *)
Inductive Action :=
| Subscribe (h : HandlerId)
| Unsubscribe (h : HandlerId)
| Invoke (args : list Value).

Definition step (operation : Operation) (st : BusState) (a : Action)
    : BusState :=
  match a with
  | Subscribe h =>
      {| subscribers := subscribe h (subscribers st);
         notified := notified st; consoleErrors := consoleErrors st |}
  | Unsubscribe h =>
      {| subscribers := unsubscribe h (subscribers st);
         notified := notified st; consoleErrors := consoleErrors st |}
  | Invoke args => snd (operationFn operation args st)
  end.

Definition run (operation : Operation) (st : BusState) (actions : list Action)
    : BusState :=
  foldl (step operation) st actions.
End On.

(** What a handler throws when called with the arguments, if it throws. *)
Definition thrownBy (handlers : HandlerId → list Value → HandlerRun)
    (args : list Value) (h : HandlerId) : option Exn :=
  match run_completion (handlers h args) with
  | Throws e => Some e
  | Returns _ => None
  end.

(** The arguments with which a handler was called, in call order. *)
Definition callsOf (h : HandlerId) (trace : list Notification)
    : list (list Value) :=
  snd <$> filter (λ n, fst n = h) trace.

(** The invocations of a sequence of actions that committed (the operation
    returned), in order. *)
Definition committed (operation : Operation) (actions : list Action)
    : list (list Value) :=
  omap (λ a, match a with
             | Invoke args =>
                 match op_operation operation args with
                 | Returns _ => Some args
                 | Throws _ => None
                 end
             | _ => None
             end) actions.

End Bus.

(** ** Drafts and mutation *)

Module Draft.
Import JS Forge.

(** The object store.  An object is a record of own data properties;
    inherited properties, accessors and the properties of primitive values
    are outside this model. *)
Inductive Kind := KObject | KArray | KFunction.

Record Obj := {
  obj_kind : Kind;
  obj_props : gmap string Value
}.

Abbreviation Heap := (gmap loc Obj).

(** [Change<T>]. *)
Record Change := {
  path : list string;
  oldValue : Value;
  newValue : Value
}.

(** The own properties of the object at a location. *)
Definition propsOf (heap : Heap) (a : loc) : gmap string Value :=
  match heap !! a with
  | Some o => obj_props o
  | None => ∅
  end.

Definition kindOf (heap : Heap) (a : loc) : Kind :=
  match heap !! a with
  | Some o => obj_kind o
  | None => KObject
  end.

(** [target[prop]] as a read of an own property: [undefined] for a property
    that is absent. *)
Definition getProp (heap : Heap) (a : loc) (prop : string) : Value :=
  default VUndefined (propsOf heap a !! prop).

(** A property definition of an object literal, [{ ..., prop: value }], or
    of a spread: the object gets the own property, whatever its name. *)
Definition defineProp (heap : Heap) (a : loc) (prop : string) (value : Value)
    : Heap :=
  <[a := {| obj_kind := kindOf heap a;
            obj_props := <[prop := value]> (propsOf heap a) |}]> heap.

(** The assignment [target[prop] = value]: the object gets or keeps the own
    property.  Under the name [__proto__] an object without such an own
    property does not get one: the assignment runs the setter that the
    object inherits, which leaves the own properties as they are. *)
Definition setProp (heap : Heap) (a : loc) (prop : string) (value : Value)
    : Heap :=
  if bool_decide (prop = "__proto__")
     && negb (bool_decide (is_Some (propsOf heap a !! prop)))
  then heap
  else defineProp heap a prop value.

(** [typeof value === 'function']. *)
Definition isFunction (heap : Heap) (value : Value) : bool :=
  match value with
  | VRef a => match kindOf heap a with KFunction => true | _ => false end
  | _ => false
  end.

(** [value && typeof value === 'object' && !Array.isArray(value)]. *)
Definition isPlainObject (heap : Heap) (value : Value) : bool :=
  match value with
  | VRef a => match kindOf heap a with KObject => true | _ => false end
  | _ => false
  end.

Definition isMethodName (prop : string) : bool :=
  bool_decide (prop = "save") || bool_decide (prop = "update")
  || bool_decide (prop = "delete").

(** What an expression [draft.p1.p2...] evaluates to: a proxy made by
    [createDraftHandler] (its target and the path its handler closes over),
    or a value that no proxy wraps. *)
Inductive Handle :=
| Proxied (target : loc) (path : list string)
| Plain (value : Value).

(** The [get] trap of [createDraftHandler]. *)
Definition createDraftHandler_get (heap : Heap) (target : loc)
    (path : list string) (prop : string) : Handle :=
  let currentPath := path ++ [prop] in
  let value := getProp heap target prop in
  if isFunction heap value || isMethodName prop then Plain value
  else if isPlainObject heap value then
    match value with
    | VRef a => Proxied a currentPath
    | _ => Plain value
    end
  else Plain value.

(** A property read on a handle. *)
Definition readProp (heap : Heap) (h : Handle) (prop : string)
    : Outcome Handle :=
  match h with
  | Proxied target path =>
      Returns (createDraftHandler_get heap target path prop)
  | Plain (VRef a) => Returns (Plain (getProp heap a prop))
  | Plain VUndefined | Plain VNull => Throws TypeError
  | Plain _ => Returns (Plain VUndefined)
  end.

(** [draft.p1.p2...pn] from a handle. *)
Fixpoint resolve (heap : Heap) (h : Handle) (objPath : list string)
    : Outcome Handle :=
  match objPath with
  | [] => Returns h
  | prop :: rest =>
      match readProp heap h prop with
      | Returns h' => resolve heap h' rest
      | Throws e => Throws e
      end
  end.

(** The state that a running mutator acts on: the store and the [changes]
    array, with a trace of every call of the [set] trap. *)
Record MState := {
  heap : Heap;
  changes : list Change;
  trapWrites : list Change
}.

(** The [set] trap of [createDraftHandler]. *)
Definition createDraftHandler_set (st : MState) (target : loc)
    (path : list string) (prop : string) (value : Value) : MState :=
  let currentPath := path ++ [prop] in
  let old := getProp (heap st) target prop in
  let change :=
    {| path := currentPath; oldValue := old; newValue := value |} in
  {| heap := setProp (heap st) target prop value;
     changes := if strict_neq old value then changes st ++ [change]
                else changes st;
     trapWrites := trapWrites st ++ [change] |}.


(** A statement of a mutator: the assignment [draft.p1...pn.prop = value] of
    a value that is no proxy, or a throw. *)
Inductive Stmt :=
| Assign (objPath : list string) (prop : string) (value : Value)
| Raise (e : Exn).

(** One statement, run against the draft whose target is [root].  The module
    is strict code: an assignment to a property of a primitive value
    throws. *)
Definition runStmt (root : loc) (st : MState) (s : Stmt)
    : Outcome unit * MState :=
  match s with
  | Raise e => (Throws e, st)
  | Assign objPath prop value =>
      match resolve (heap st) (Proxied root []) objPath with
      | Throws e => (Throws e, st)
      | Returns (Proxied target path) =>
          (Returns (), createDraftHandler_set st target path prop value)
      | Returns (Plain (VRef a)) =>
          (Returns (),
           {| heap := setProp (heap st) a prop value;
              changes := changes st; trapWrites := trapWrites st |})
      | Returns (Plain _) => (Throws TypeError, st)
      end
  end.

(** [mutator(draft)]: the statements in order, up to the first throw. *)
Fixpoint runMutator (root : loc) (st : MState) (mutator : list Stmt)
    : Outcome unit * MState :=
  match mutator with
  | [] => (Returns (), st)
  | s :: rest =>
      match runStmt root st s with
      | (Returns _, st') => runMutator root st' rest
      | (Throws e, st') => (Throws e, st')
      end
  end.

(** [{ ...entity }]: a new plain object with the own properties of the
    entity. *)
Definition spread (h : Heap) (entity : loc) : Obj :=
  {| obj_kind := KObject; obj_props := propsOf h entity |}.

Definition alloc (h : Heap) (o : Obj) : loc * Heap :=
  let a := fresh (dom h) in (a, <[a := o]> h).

(** What [mutate] leaves behind: the settlement of its promise, the store,
    the changes it tracked, and the function objects it called. *)
Record MutateResult := {
  settled : Outcome Handle;
  finalHeap : Heap;
  tracked : list Change;
  called : list loc
}.

(** The first three statements of [mutate]: the empty [changes] array, the
    draft (its target is the first copy of the entity, the second copy goes
    to the handler's unused [base]), and the call of the mutator. *)
Definition draftRun (h : Heap) (entity : loc) (mutator : list Stmt)
    : loc * (Outcome unit * MState) :=
  let '(target, h1) := alloc h (spread h entity) in
  let '(base, h2) := alloc h1 (spread h1 entity) in
  (target,
   runMutator target {| heap := h2; changes := []; trapWrites := [] |} mutator).

Section Mutate.
(** The bodies of function objects: the store after the call and how the
    call completes. *)
Variable call : loc → Heap → Heap * Outcome unit.

(** [mutate].  The draft is a proxy over a first copy of the entity; the
    handler is made from a second copy, which no trap reads.  The world is
    not used, and the operation name goes to the log only. *)
Definition mutate (world : World) (h : Heap) (entity : loc)
    (mutator : list Stmt) (operationName : option string) : MutateResult :=
  let '(target, run) := draftRun h entity mutator in
  let draft := Proxied target [] in
  match run with
  | (Throws e, st) =>
      {| settled := Throws e; finalHeap := heap st;
         tracked := changes st; called := [] |}
  | (Returns _, st) =>
      if bool_decide (length (changes st) = 0%nat) then
        {| settled := Returns (Plain (VRef entity)); finalHeap := heap st;
           tracked := changes st; called := [] |}
      else
        match getProp (heap st) entity "save" with
        | VRef f =>
            if isFunction (heap st) (VRef f) then
              let '(h3, completion) := call f (heap st) in
              {| settled := match completion with
                            | Returns _ => Returns draft
                            | Throws e => Throws e
                            end;
                 finalHeap := h3; tracked := changes st; called := [f] |}
            else
              {| settled := Throws TypeError; finalHeap := heap st;
                 tracked := changes st; called := [] |}
        | _ =>
            {| settled := Throws TypeError; finalHeap := heap st;
               tracked := changes st; called := [] |}
        end
  end.
End Mutate.


End Draft.

(** ** Sample data *)

Module Samples.
Import JS Forge Bus Draft.

Definition noProperties : OperationProperties :=
  {| associative := None; commutative := None; idempotent := None;
     deterministic := None; pure := None; conflictFree := None;
     locations := None |}.

Definition numberCell : Cell :=
  {| cell_name := "number"; cell_primitiveType := PNumber;
     cell_version := 1%float; cell_validation := None;
     cell_errorMessage := None; cell_traits := ∅ |}.

(** An operation [(a) => a], registered as ["echo"], version 1. *)
Definition echo : Operation :=
  {| op_name := "echo"; op_version := 1%float; op_type := Some Producer;
     op_inputs := [numberCell]; op_output := numberCell;
     op_operation := λ args, Returns (default VUndefined (head args));
     op_properties := noProperties; op_reversableWith := None;
     op_databaseImplementation := None |}.

(** An operation [(a) => 42], registered as ["answer"], version 1. *)
Definition answer : Operation :=
  {| op_name := "answer"; op_version := 1%float; op_type := Some Producer;
     op_inputs := [numberCell]; op_output := numberCell;
     op_operation := λ _, Returns (VNumber 42%float);
     op_properties := noProperties; op_reversableWith := None;
     op_databaseImplementation := None |}.

Definition emptyWorld : World := createWorld [] None.

(** A world whose operation catalogue holds ["echo"], version 1. *)
Definition echoWorld : World := updatedWorld emptyWorld echo.

(** A trait with one required parameter: [equalTo], whose validation is
    [(v) => v === options.value]. *)
Definition equalTo : TraitDefinition :=
  {| td_name := "equalTo"; td_appliesTo := [PString; PNumber];
     td_parameters := Some ["value"];
     td_implementation := λ options,
       Returns
         {| ti_validation :=
              Some (λ v, strict_eq v (default VUndefined (options !! "value")));
            ti_errorMessage := Some "Value must equal the constant";
            ti_rest := ∅ |} |}.

Definition traitWorld : World := defineTrait emptyWorld equalTo.

Definition sevenParams : gmap string Value := {[ "value" := VNumber 7%float ]}.

(** Handlers that return at once. *)
Definition silent : HandlerId → list Value → HandlerRun :=
  λ _ _, {| run_calls := []; run_completion := Returns () |}.

(** Handler 0 throws, every other handler returns. *)
Definition zeroThrows : HandlerId → list Value → HandlerRun :=
  λ h _, {| run_calls := [];
            run_completion := if bool_decide (h = 0%nat)
                              then Throws (UserException (VString "boom"))
                              else Returns () |}.

(** Handler 0 listens once: when called it calls its own unsubscribe
    function. *)
Definition zeroOnce : HandlerId → list Value → HandlerRun :=
  λ h _, {| run_calls := if bool_decide (h = 0%nat)
                         then [CallUnsubscribe 0%nat] else [];
            run_completion := Returns () |}.

(** The state of an operation with the subscribers 0 and 1, in this order. *)
Definition twoSubscribers : BusState :=
  {| subscribers := [0%nat; 1%nat]; notified := []; consoleErrors := [] |}.

(** An entity instance at location 0: two data properties, a nested object
    (location 2) and its [save] method (the function object at location 1). *)
Definition personHeap : Heap :=
  {[ 0%nat := {| obj_kind := KObject;
                 obj_props := {[ "name" := VString "John";
                                 "age" := VNumber 30%float;
                                 "address" := VRef 2%nat;
                                 "save" := VRef 1%nat ]} |};
     1%nat := {| obj_kind := KFunction; obj_props := ∅ |};
     2%nat := {| obj_kind := KObject;
                 obj_props := {[ "city" := VString "Oslo" ]} |} ]}.


(** [draft => { draft.age = 31 }]. *)
Definition birthday : list Stmt := [ Assign [] "age" (VNumber 31%float) ].

(** Every function body returns and leaves the store as it is. *)
Definition noEffect : loc → Heap → Heap * Outcome unit :=
  λ _ h, (h, Returns ()).

End Samples.

(** ** Cells and the helpers that apply traits by name *)

Module Cells.
Import JS Forge.

(** [Omit<Cell<T>, 'traits'>]: what [createCell] is given. *)
Record CellDefinition := {
  def_name : string;
  def_primitiveType : PrimitiveType;
  def_version : float;
  def_validation : option (Value → bool);
  def_errorMessage : option string
}.

(** The cell that [createCell] builds: the definition with an empty trait
    map. *)
Definition cellOf (definition : CellDefinition) : Cell :=
  {| cell_name := def_name definition;
     cell_primitiveType := def_primitiveType definition;
     cell_version := def_version definition;
     cell_validation := def_validation definition;
     cell_errorMessage := def_errorMessage definition;
     cell_traits := ∅ |}.

(** [createCell]: like [createOperation], it builds a copy of the world that
    holds the cell, drops it, and returns the cell; the second component is
    the world as the caller holds it after the call. *)
Definition createCell (world : World) (definition : CellDefinition)
    : Outcome Cell * World :=
  let cell := cellOf definition in
  let _ :=
    {| storageLocations := storageLocations world; traits := traits world;
       traitsPrototype := traitsPrototype world;
       cells := <[def_name definition := cell]> (cells world);
       columns := columns world; rows := rows world;
       properties := properties world; entities := entities world;
       operations := operations world |} in
  (Returns cell, world).

(** [createString], [createNumber], [createBoolean]: the version defaults
    to 1. *)
Definition createString (world : World) (name : string)
    (version : option float) : Outcome Cell * World :=
  createCell world
    {| def_name := name; def_primitiveType := PString;
       def_version := default 1%float version;
       def_validation := None; def_errorMessage := None |}.

Definition createNumber (world : World) (name : string)
    (version : option float) : Outcome Cell * World :=
  createCell world
    {| def_name := name; def_primitiveType := PNumber;
       def_version := default 1%float version;
       def_validation := None; def_errorMessage := None |}.

Definition createBoolean (world : World) (name : string)
    (version : option float) : Outcome Cell * World :=
  createCell world
    {| def_name := name; def_primitiveType := PBoolean;
       def_version := default 1%float version;
       def_validation := None; def_errorMessage := None |}.

(** The loop [traitNames.forEach(traitName => { cell = applyTrait(world,
    cell, traitName); })]: no parameter object is passed, and the first
    throw leaves the loop. *)
Fixpoint applyTraits (world : World) (cell : Cell) (traitNames : list string)
    : Outcome Cell :=
  match traitNames with
  | [] => Returns cell
  | traitName :: rest =>
      match applyTrait world cell traitName None with
      | Returns cell' => applyTraits world cell' rest
      | Throws e => Throws e
      end
  end.

(** The helpers [string], [number] and [boolean] (their names are those of
    types here, hence the suffix).  [uniqueId] stands for
    [Math.random().toString(36).substr(2, 9)]. *)
Definition string_cell (world : World) (uniqueId : string)
    (traitNames : list string) : Outcome Cell :=
  match fst (createString world ("string_" +:+ uniqueId) None) with
  | Returns cell => applyTraits world cell traitNames
  | Throws e => Throws e
  end.

Definition number_cell (world : World) (uniqueId : string)
    (traitNames : list string) : Outcome Cell :=
  match fst (createNumber world ("number_" +:+ uniqueId) None) with
  | Returns cell => applyTraits world cell traitNames
  | Throws e => Throws e
  end.

Definition boolean_cell (world : World) (uniqueId : string)
    (traitNames : list string) : Outcome Cell :=
  match fst (createBoolean world ("boolean_" +:+ uniqueId) None) with
  | Returns cell => applyTraits world cell traitNames
  | Throws e => Throws e
  end.

(** [collection]: the cell is built in place, with the primitive type
    ['any']; the item cell only gives the phantom type. *)
Definition collection (world : World) (uniqueId : string) (itemCell : Cell)
    (traitNames : list string) : Outcome Cell :=
  applyTraits world
    {| cell_name := "collection_" +:+ uniqueId; cell_primitiveType := PAny;
       cell_version := 1%float; cell_validation := None;
       cell_errorMessage := None; cell_traits := ∅ |}
    traitNames.

(** A trait can be applied by name alone: the catalogue gives it under the
    name, it applies to the primitive type, and it declares no parameter. *)
Definition appliesByName (world : World) (p : PrimitiveType)
    (traitName : string) (trait : TraitDefinition) : Prop :=
  lookupTrait world traitName = Found trait
  ∧ p ∈ td_appliesTo trait
  ∧ (td_parameters trait = None ∨ td_parameters trait = Some []).

End Cells.

(** ** Entity instances *)

Module Entities.
Import JS Forge Draft.

(** The bodies of the three closures that [createEntityInstance] makes.  The
    [update] closure refers to the variable [instanceWithMethods], that is
    to the object that this call of [createEntityInstance] built. *)
Inductive Closure :=
| SaveBody (entityName : string) (instanceWithMethods : loc)
| UpdateBody (instanceWithMethods : loc)
| DeleteBody (entityName : string) (instanceWithMethods : loc).

(** The function objects whose bodies are known. *)
Abbreviation Closures := (gmap loc Closure).

Definition functionObject : Obj :=
  {| obj_kind := KFunction; obj_props := ∅ |}.

(** [{ ...a, ...b }] on property maps: the later spread wins. *)
Definition spreadOver (a b : gmap string Value) : gmap string Value := b ∪ a.

(** [createEntityInstance]: the empty [instance], then the object literal,
    property by property: the spreads of [instance] and of the data, then
    the three methods, which replace data properties of the same names.
    [data] holds the own properties of the data object. *)
Definition createEntityInstance (h : Heap) (closures : Closures)
    (entity : Entity) (data : gmap string Value) : loc * Heap * Closures :=
  let entityName := row_name (ent_row entity) in
  let '(instance, h0) := alloc h {| obj_kind := KObject; obj_props := ∅ |} in
  let '(instanceWithMethods, h1) :=
    alloc h0 {| obj_kind := KObject;
                obj_props := spreadOver (propsOf h0 instance) data |} in
  let '(save, h2) := alloc h1 functionObject in
  let h3 := defineProp h2 instanceWithMethods "save" (VRef save) in
  let '(update, h4) := alloc h3 functionObject in
  let h5 := defineProp h4 instanceWithMethods "update" (VRef update) in
  let '(delete, h6) := alloc h5 functionObject in
  let h7 := defineProp h6 instanceWithMethods "delete" (VRef delete) in
  (instanceWithMethods, h7,
   <[delete := DeleteBody entityName instanceWithMethods]>
     (<[update := UpdateBody instanceWithMethods]>
        (<[save := SaveBody entityName instanceWithMethods]> closures))).

(** A call [f(newData)] of a function object whose body is known: [save]
    and [delete] log and return [undefined]; [update] returns a new object,
    [{ ...instanceWithMethods, ...newData }].  [None]: the body of the
    function is not known. *)
Definition callClosure (h : Heap) (closures : Closures) (f : loc)
    (newData : gmap string Value) : option (Outcome Value * Heap) :=
  match closures !! f with
  | Some (SaveBody _ _) | Some (DeleteBody _ _) => Some (Returns VUndefined, h)
  | Some (UpdateBody instanceWithMethods) =>
      let '(updated, h') :=
        alloc h {| obj_kind := KObject;
                   obj_props :=
                     spreadOver (propsOf h instanceWithMethods) newData |} in
      Some (Returns (VRef updated), h')
  | None => None
  end.

(** The method call [obj.name(newData)]: a property that is no function
    cannot be called. *)
Definition callMethod (h : Heap) (closures : Closures) (obj : loc)
    (name : string) (newData : gmap string Value)
    : option (Outcome Value * Heap) :=
  match getProp h obj name with
  | VRef f =>
      if isFunction h (VRef f) then callClosure h closures f newData
      else Some (Throws TypeError, h)
  | _ => Some (Throws TypeError, h)
  end.

(** How [loadEntityInstance] settles: the error it throws for a missing id
    carries the name of the entity's row; [Rejected] is any other throw. *)
Inductive Loaded :=
| LoadedInstance (instance : loc) (h : Heap) (closures : Closures)
| CannotLoad (entityName : string)
| Rejected (e : Exn).

Section Load.
(** [String(id)] for an id that is an object: the completion of the
    conversion methods of the object ([toString], [valueOf]), which are
    user code; they are taken to leave the store as it is.  For a primitive
    id, a symbol included, [String(id)] returns. *)
Variable stringOf : loc → Outcome string.

(** [loadEntityInstance]: refuses the ids [null] and [undefined]; for any
    other id it writes the log line, whose [String(id)] may throw, and gives
    an instance made from the empty data object. *)
Definition loadEntityInstance (h : Heap) (closures : Closures)
    (entity : Entity) (id : Value) : Loaded :=
  if strict_eq id VNull || strict_eq id VUndefined
  then CannotLoad (row_name (ent_row entity))
  else
    match match id with
          | VRef a => stringOf a
          | _ => Returns ""
          end with
    | Throws e => Rejected e
    | Returns _ =>
        let '(instance, h', closures') :=
          createEntityInstance h closures entity ∅ in
        LoadedInstance instance h' closures'
    end.
End Load.

(** A mutator that assigns to properties of the draft itself only. *)
Definition topLevel (s : Stmt) : Prop :=
  match s with
  | Assign [] _ _ => True
  | _ => False
  end.

(** A recorded change comes from an assignment of the mutator. *)
Definition fromAssignment (mutator : list Stmt) (c : Change) : Prop :=
  ∃ objPath prop value,
    Assign objPath prop value ∈ mutator
    ∧ path c = objPath ++ [prop]
    ∧ newValue c = value
    ∧ strict_neq (oldValue c) value = true.

(** The values that a mutator of top-level assignments leaves in the
    properties it assigns: the last assignment to a property wins. *)
Definition assigned (mutator : list Stmt) : gmap string Value :=
  foldl (λ m s, match s with
                | Assign [] prop value => <[prop := value]> m
                | _ => m
                end) ∅ mutator.

(** A statement that assigns to no property name that objects inherit from
    [Object.prototype]. *)
Definition ownName (s : Stmt) : Prop :=
  match s with
  | Assign _ prop _ => prop ∉ objectPrototypeNames
  | Raise _ => True
  end.

End Entities.

(** ** More sample data *)

Module MoreSamples.
Import JS Forge Bus Draft Cells Entities Samples.

(** The trait [required] of the README: no parameter, and the validation
    [(value) => value !== null && value !== undefined]. *)
Definition required : TraitDefinition :=
  {| td_name := "required"; td_appliesTo := [PString; PNumber; PBoolean];
     td_parameters := None;
     td_implementation := λ _,
       Returns
         {| ti_validation :=
              Some (λ v, strict_neq v VNull && strict_neq v VUndefined);
            ti_errorMessage := Some "This field is required";
            ti_rest := ∅ |} |}.

(** A world with the traits [equalTo] and [required]. *)
Definition twoTraitWorld : World := defineTrait traitWorld required.

(** A trait for collections: [nonEmpty], which lists ['any'] and declares
    no parameter. *)
Definition nonEmpty : TraitDefinition :=
  {| td_name := "nonEmpty"; td_appliesTo := [PAny];
     td_parameters := None;
     td_implementation := λ _,
       Returns
         {| ti_validation := None;
            ti_errorMessage := Some "The collection must not be empty";
            ti_rest := ∅ |} |}.

(** A world with the traits [equalTo], [required] and [nonEmpty]. *)
Definition threeTraitWorld : World := defineTrait twoTraitWorld nonEmpty.

(** The trait [minLength] of the README.  Its implementation function is
    written [(cell, { length }) => ...]; [applyTrait] calls it with the
    parameter object alone, so the second parameter is [undefined] and its
    destructuring is a [TypeError]. *)
Definition minLength : TraitDefinition :=
  {| td_name := "minLength"; td_appliesTo := [PString];
     td_parameters := Some ["length"];
     td_implementation := λ _, Throws TypeError |}.

(** The world created with the trait [minLength]. *)
Definition minLengthWorld : World := createWorld [] (Some [minLength]).

(** The cell that [createString(world, 'name')] returns. *)
Definition nameCell : Cell :=
  {| cell_name := "name"; cell_primitiveType := PString;
     cell_version := 1%float; cell_validation := None;
     cell_errorMessage := None; cell_traits := ∅ |}.

(** The parameter object [{ length: 2 }]. *)
Definition lengthTwo : gmap string Value := {[ "length" := VNumber 2%float ]}.

(** An entity whose row is named [Person]. *)
Definition personEntity : Entity :=
  {| ent_row := {| row_name := "Person"; row_version := 1%float;
                   row_columns := ∅; row_storageLocation := None |};
     ent_properties := ∅; ent_methods := None |}.

(** The data object [{ name: 'John', age: 30 }]. *)
Definition johnData : gmap string Value :=
  {[ "name" := VString "John"; "age" := VNumber 30%float ]}.

(** Handler 0 subscribes handler 2 when it is called; the others return at
    once. *)
Definition zeroInvites : HandlerId → list Value → HandlerRun :=
  λ h _, {| run_calls := if bool_decide (h = 0%nat)
                         then [CallSubscribe 2%nat] else [];
            run_completion := Returns () |}.

(** The state in which handler 0 alone is subscribed. *)
Definition oneSubscriber : BusState :=
  {| subscribers := [0%nat]; notified := []; consoleErrors := [] |}.

(** Handler 0 calls its own unsubscribe function and then throws; the
    others return at once. *)
Definition zeroLeavesThrowing : HandlerId → list Value → HandlerRun :=
  λ h _, if bool_decide (h = 0%nat)
         then {| run_calls := [CallUnsubscribe 0%nat];
                 run_completion := Throws (UserException (VString "boom")) |}
         else {| run_calls := []; run_completion := Returns () |}.

(** Handler 0 subscribes handler 2 and then throws; the others return at
    once. *)
Definition zeroInvitesThrowing : HandlerId → list Value → HandlerRun :=
  λ h _, if bool_decide (h = 0%nat)
         then {| run_calls := [CallSubscribe 2%nat];
                 run_completion := Throws (UserException (VString "boom")) |}
         else {| run_calls := []; run_completion := Returns () |}.

End MoreSamples.

(* ===================================================================== *)
(** * Part II. Theorems                                                    *)
(* ===================================================================== *)

Section DeltaLaws.
Context {K : Type} `{Countable K}.
Implicit Types a b c d : gmap K Z.
Import Delta.

Lemma weight_materialize (w : Z) : default 0 (materialize w) = w.
Proof. unfold materialize. case_decide; simpl; lia. Qed.

Lemma lookup_combine a b k :
  combine a b !! k = materialize (weight a k + weight b k).
Proof.
  unfold combine, weight. rewrite lookup_merge.
  destruct (a !! k) as [x|] eqn:Ea, (b !! k) as [y|] eqn:Eb; simpl; try done.
Qed.

Lemma weight_combine a b k : weight (combine a b) k = weight a k + weight b k.
Proof.
  unfold weight at 1. rewrite lookup_combine. apply weight_materialize.
Qed.

Lemma weight_negate d k : weight (negate d) k = - weight d k.
Proof.
  unfold weight, negate. rewrite lookup_fmap.
  destruct (d !! k); simpl; lia.
Qed.

Lemma combine_wellFormed a b : wellFormed (combine a b).
Proof.
  intros k. rewrite lookup_combine. unfold materialize.
  case_decide; congruence.
Qed.

(** The empty delta is the unit of [combine] on well-formed deltas. *)
Lemma combine_empty_r a : wellFormed a → combine a ∅ = a.
Proof.
  intros Hwf. apply map_eq; intros k.
  rewrite lookup_combine. unfold weight. rewrite lookup_empty; simpl.
  specialize (Hwf k). unfold materialize.
  destruct (a !! k) as [w|]; simpl; [|done].
  rewrite Z.add_0_r. case_decide; [congruence|done].
Qed.

(** C2. [combine] is associative and commutative; it adds weights pointwise
    (also at keys that only one side holds), keeps no key of weight zero,
    and holds only keys of its arguments. *)
Theorem combine_assoc_comm a b c :
  combine (combine a b) c = combine a (combine b c)
  ∧ combine a b = combine b a
  ∧ (∀ k, weight (combine a b) k = weight a k + weight b k)
  ∧ wellFormed (combine a b)
  ∧ dom (combine a b) ⊆ dom a ∪ dom b.
Proof.
  split_and!.
  - apply map_eq; intros k.
    rewrite !lookup_combine, !weight_combine. f_equal. lia.
  - apply map_eq; intros k. rewrite !lookup_combine. f_equal. lia.
  - intros k. apply weight_combine.
  - apply combine_wellFormed.
  - intros k. rewrite elem_of_union, !elem_of_dom, lookup_combine.
    unfold weight, materialize.
    destruct (a !! k) eqn:Ea; [by left; eauto|].
    destruct (b !! k) eqn:Eb; [by right; eauto|].
    simpl. intros [? ?]. done.
Qed.

(** C3. Combining a delta with its negation gives the empty delta, and
    [negate] flips the sign of every weight. *)
Theorem combine_negate_empty d :
  combine d (negate d) = ∅
  ∧ isEmpty (combine d (negate d)) = true
  ∧ (∀ k, weight (negate d) k = - weight d k).
Proof.
  assert (Hempty : combine d (negate d) = ∅).
  { apply map_eq; intros k.
    rewrite lookup_combine, weight_negate, lookup_empty.
    unfold materialize. case_decide; [done | lia]. }
  split_and!.
  - exact Hempty.
  - rewrite Hempty. unfold isEmpty. apply bool_decide_eq_true.
    apply map_Forall_empty.
  - intros k. apply weight_negate.
Qed.
End DeltaLaws.

(** ** The catalogues: createOperation *)

Section Registration.
Import JS Forge Samples.

Lemma createOperation_returns world definition :
  fst (createOperation world definition) = Returns definition.
Proof. reflexivity. Qed.

Lemma createOperation_world world definition :
  snd (createOperation world definition) = world.
Proof. reflexivity. Qed.

Lemma updatedWorld_lookup world operation :
  operations (updatedWorld world operation) !! op_name operation
  = Some operation.
Proof. unfold updatedWorld; simpl. apply lookup_insert_eq. Qed.

(** The sibling registrations store what they register. *)
Lemma defineTrait_registers world definition :
  traits (defineTrait world definition) !! td_name definition = Some definition.
Proof. unfold defineTrait; simpl. apply lookup_insert_eq. Qed.

Lemma assignTrait_no_own_proto ts :
  ∀ catalogue : gmap string TraitDefinition * option TraitDefinition,
    catalogue.1 !! "__proto__" = None →
    (foldl assignTrait catalogue ts).1 !! "__proto__" = None.
Proof.
  induction ts as [|t ts IH]; intros catalogue Hnone; simpl; [done|].
  apply IH. unfold assignTrait. case_bool_decide as Hname; simpl; [done|].
  by rewrite lookup_insert_ne.
Qed.

Lemma createWorld_registers storage ts trait :
  lookupTrait (createWorld storage (Some (ts ++ [trait]))) (td_name trait)
  = Found trait.
Proof.
  unfold lookupTrait, createWorld; simpl. rewrite foldl_app; simpl.
  unfold assignTrait at 1 3. case_bool_decide as Hname; simpl.
  - by rewrite Hname, assignTrait_no_own_proto.
  - by rewrite lookup_insert_eq.
Qed.

Lemma echoWorld_holds_echo : operations echoWorld !! "echo" = Some echo.
Proof. apply (updatedWorld_lookup emptyWorld echo). Qed.

(** C4. At the empty world and the operation ["echo"], [createOperation]
    returns the operation, and the catalogue of the world after the call has
    no entry ["echo"]: the copy of the world that holds it, [updatedWorld],
    is dropped. *)
Theorem createOperation_drops_updatedWorld :
  createOperation emptyWorld echo = (Returns echo, emptyWorld)
  ∧ operations (snd (createOperation emptyWorld echo)) !! "echo" = None
  ∧ operations (updatedWorld emptyWorld echo) !! "echo" = Some echo.
Proof.
  split_and!.
  - reflexivity.
  - rewrite createOperation_world. apply lookup_empty.
  - apply (updatedWorld_lookup emptyWorld echo).
Qed.

(** C5 (counterexample).  In a world whose catalogue holds ["echo"],
    version 1, registering ["echo"], version 1, again returns the operation;
    nothing is thrown. *)
Lemma createOperation_duplicate_not_refused :
  operations echoWorld !! op_name echo = Some echo
  ∧ fst (createOperation echoWorld echo) = Returns echo
  ∧ ∀ e, fst (createOperation echoWorld echo) ≠ Throws e.
Proof.
  split_and!.
  - exact echoWorld_holds_echo.
  - apply createOperation_returns.
  - intros e. rewrite createOperation_returns. discriminate.
Qed.

(** C5 (amended).  When the catalogue already holds an operation with the
    name and version of the definition, [createOperation] does not fail: it
    returns the definition and throws nothing. *)
Theorem createOperation_duplicate_returns world existing definition :
  operations world !! op_name definition = Some existing →
  op_version existing = op_version definition →
  fst (createOperation world definition) = Returns definition
  ∧ ∀ e, fst (createOperation world definition) ≠ Throws e.
Proof.
  intros _ _. split.
  - apply createOperation_returns.
  - intros e. rewrite createOperation_returns. discriminate.
Qed.

Lemma createOperation_duplicate_returns_witness :
  operations echoWorld !! op_name echo = Some echo
  ∧ fst (createOperation echoWorld echo) = Returns echo.
Proof.
  split; [exact echoWorld_holds_echo|].
  apply (createOperation_duplicate_returns echoWorld echo echo).
  - exact echoWorld_holds_echo.
  - reflexivity.
Defined.
End Registration.

(** ** Traits: applyTrait *)

Section Traits.
Import JS Forge Samples MoreSamples.

Lemma setOf_foldl_elem (l acc : list string) (x : string) :
  x ∈ foldl (λ acc x, if bool_decide (x ∈ acc) then acc else acc ++ [x]) acc l →
  x ∈ acc ∨ x ∈ l.
Proof.
  revert acc. induction l as [|y l IH]; intros acc; simpl.
  - by left.
  - intros Hx. apply IH in Hx as [Hx | Hx].
    + case_bool_decide.
      * by left.
      * apply elem_of_app in Hx as [Hx | Hx]; [by left|].
        apply list_elem_of_singleton in Hx as ->. right. by left.
    + right. by right.
Qed.

Lemma setOf_elem (l : list string) (x : string) : x ∈ setOf l → x ∈ l.
Proof.
  intros Hx. apply setOf_foldl_elem in Hx as [Hx | Hx]; [|done].
  by apply elem_of_nil in Hx.
Qed.

Lemma lookupTrait_own world traitName trait :
  traits world !! traitName = Some trait →
  lookupTrait world traitName = Found trait.
Proof. intros Htrait. unfold lookupTrait. by rewrite Htrait. Qed.

Lemma hasProperty_own (ps : gmap string Value) (param : string) :
  is_Some (ps !! param) → hasProperty ps param = true.
Proof.
  intros Hsome. unfold hasProperty.
  by rewrite (bool_decide_eq_true_2 _ Hsome).
Qed.

Lemma firstMissing_none (required : list string) (ps : gmap string Value) :
  (∀ param, param ∈ required → hasProperty ps param = true) →
  firstMissing required ps = None.
Proof.
  induction required as [|p required IH]; intros Hall; simpl; [done|].
  rewrite Hall by (by left).
  apply IH. intros q Hq. apply Hall. by right.
Qed.

Lemma checkParameters_supplied traitName trait parameters :
  parametersSupplied trait parameters →
  checkParameters traitName trait parameters = None.
Proof.
  unfold parametersSupplied, checkParameters.
  destruct (td_parameters trait) as [declared|]; [|done].
  destruct parameters as [ps|].
  - intros Hall. rewrite firstMissing_none; [done|].
    intros q Hq. apply hasProperty_own, Hall. by apply setOf_elem.
  - intros ->. reflexivity.
Qed.

Lemma applyTrait_returns world cell traitName trait parameters implementation :
  lookupTrait world traitName = Found trait →
  cell_primitiveType cell ∈ td_appliesTo trait →
  parametersSupplied trait parameters →
  td_implementation trait (default ∅ parameters) = Returns implementation →
  applyTrait world cell traitName parameters =
    Returns {| cell_name := cell_name cell;
               cell_primitiveType := cell_primitiveType cell;
               cell_version := cell_version cell;
               cell_validation := cell_validation cell;
               cell_errorMessage := cell_errorMessage cell;
               cell_traits :=
                 <[traitName := traitInstance trait parameters implementation]>
                   (cell_traits cell) |}.
Proof.
  intros Htrait Happlies Hparams Himpl. unfold applyTrait.
  rewrite Htrait, (bool_decide_eq_true_2 _ Happlies); simpl.
  rewrite (checkParameters_supplied traitName trait parameters Hparams).
  by rewrite Himpl.
Qed.

Lemma applyTrait_implementation_throws world cell traitName trait parameters e :
  lookupTrait world traitName = Found trait →
  cell_primitiveType cell ∈ td_appliesTo trait →
  parametersSupplied trait parameters →
  td_implementation trait (default ∅ parameters) = Throws e →
  applyTrait world cell traitName parameters = Throws e.
Proof.
  intros Htrait Happlies Hparams Himpl. unfold applyTrait.
  rewrite Htrait, (bool_decide_eq_true_2 _ Happlies); simpl.
  rewrite (checkParameters_supplied traitName trait parameters Hparams).
  by rewrite Himpl.
Qed.

(** C9, as the claim states it, fails.  The trait [minLength] of the README
    is registered, applies to strings, and is given its parameter [length];
    its implementation function throws, and so does [applyTrait]: no cell
    is returned. *)
Lemma applyTrait_throws_with_implementation :
  traits minLengthWorld !! "minLength" = Some minLength
  ∧ cell_primitiveType nameCell ∈ td_appliesTo minLength
  ∧ parametersSupplied minLength (Some lengthTwo)
  ∧ applyTrait minLengthWorld nameCell "minLength" (Some lengthTwo)
    = Throws TypeError.
Proof.
  split_and!.
  - reflexivity.
  - simpl. apply list_elem_of_singleton. reflexivity.
  - simpl. intros param Hparam.
    apply list_elem_of_singleton in Hparam as ->. by eexists.
  - reflexivity.
Qed.

(** C9, amended.  For a trait that the catalogue gives under the name and
    that applies to the cell, with its required parameters supplied:
    when the implementation function of the trait returns, [applyTrait]
    returns a cell with the name, primitive type and version of the given
    one, whose trait map is the given cell's with the trait added; the
    result is a new object; when the implementation function throws,
    [applyTrait] throws the same and allocates nothing.  In both cases the
    given cell is in the store afterwards as it was before. *)
Theorem applyTrait_extends_traits world store c cell traitName trait parameters :
  store !! c = Some cell →
  lookupTrait world traitName = Found trait →
  cell_primitiveType cell ∈ td_appliesTo trait →
  parametersSupplied trait parameters →
  match td_implementation trait (default ∅ parameters) with
  | Returns implementation =>
      ∃ updated l,
        applyTrait world cell traitName parameters = Returns updated
        ∧ cell_traits updated
          = <[traitName := traitInstance trait parameters implementation]>
              (cell_traits cell)
        ∧ cell_name updated = cell_name cell
        ∧ cell_primitiveType updated = cell_primitiveType cell
        ∧ cell_version updated = cell_version cell
        ∧ applyTraitAt world store c traitName parameters
          = Some (Returns l, <[l := updated]> store)
        ∧ l ≠ c
        ∧ <[l := updated]> store !! c = Some cell
        ∧ <[l := updated]> store !! l = Some updated
  | Throws e =>
      applyTrait world cell traitName parameters = Throws e
      ∧ applyTraitAt world store c traitName parameters
        = Some (Throws e, store)
  end.
Proof.
  intros Hc Htrait Happlies Hparams.
  destruct (td_implementation trait (default ∅ parameters))
    as [implementation|e] eqn:Himpl.
  - pose proof (applyTrait_returns world cell traitName trait parameters
                  implementation Htrait Happlies Hparams Himpl) as Hret.
    eexists _, (fresh (dom store)). split; [exact Hret|].
    assert (Hne : fresh (dom store) ≠ c).
    { intros Heq. apply (is_fresh (dom store)). rewrite Heq.
      apply elem_of_dom. by eexists. }
    split_and!; try reflexivity.
    + unfold applyTraitAt. rewrite Hc; simpl. by rewrite Hret.
    + exact Hne.
    + by rewrite lookup_insert_ne.
    + apply lookup_insert_eq.
  - pose proof (applyTrait_implementation_throws world cell traitName trait
                  parameters e Htrait Happlies Hparams Himpl) as Hthrows.
    split; [exact Hthrows|].
    unfold applyTraitAt. rewrite Hc; simpl. by rewrite Hthrows.
Qed.

Lemma applyTrait_extends_traits_witness :
  ∃ updated l,
    applyTrait traitWorld numberCell "equalTo" (Some sevenParams)
      = Returns updated
    ∧ cell_traits updated
      = <["equalTo" := traitInstance equalTo (Some sevenParams)
                         {| ti_validation :=
                              Some (λ v, strict_eq v (VNumber 7%float));
                            ti_errorMessage :=
                              Some "Value must equal the constant";
                            ti_rest := ∅ |}]>
          (cell_traits numberCell)
    ∧ cell_name updated = cell_name numberCell
    ∧ cell_primitiveType updated = cell_primitiveType numberCell
    ∧ cell_version updated = cell_version numberCell
    ∧ applyTraitAt traitWorld {[ 0%nat := numberCell ]} 0%nat "equalTo"
        (Some sevenParams)
      = Some (Returns l, <[l := updated]> {[ 0%nat := numberCell ]})
    ∧ l ≠ 0%nat
    ∧ <[l := updated]> ({[ 0%nat := numberCell ]} : gmap loc Cell) !! 0%nat
      = Some numberCell
    ∧ <[l := updated]> ({[ 0%nat := numberCell ]} : gmap loc Cell) !! l
      = Some updated.
Proof.
  apply (applyTrait_extends_traits traitWorld {[ 0%nat := numberCell ]} 0%nat
           numberCell "equalTo" equalTo (Some sevenParams)).
  - reflexivity.
  - reflexivity.
  - simpl. apply elem_of_cons. right. apply list_elem_of_singleton.
    reflexivity.
  - simpl. intros param Hparam.
    apply list_elem_of_singleton in Hparam as ->. by eexists.
Defined.
End Traits.

(** ** Subscribers: on *)

Section Subscribers.
Import JS Forge Bus Samples.
Variable handlers : HandlerId → list Value → HandlerRun.
Variable operation : Operation.

Lemma operationFn_result args st :
  fst (operationFn handlers operation args st) = op_operation operation args.
Proof. unfold operationFn. by destruct (op_operation operation args). Qed.

End Subscribers.

Section Throws.
Import JS Forge Bus.
Variables handlers handlers' : HandlerId → list Value → HandlerRun.
Hypothesis same_calls :
  ∀ h args, run_calls (handlers h args) = run_calls (handlers' h args).

(** Who is notified does not depend on which handlers throw: two families of
    handlers that differ in their completions only leave the same
    subscribers and the same calls. *)
Lemma forEachFrom_ignores_throws args remaining : ∀ k st st',
  subscribers st = subscribers st' →
  notified st = notified st' →
  subscribers (forEachFrom handlers remaining k args st)
    = subscribers (forEachFrom handlers' remaining k args st')
  ∧ notified (forEachFrom handlers remaining k args st)
    = notified (forEachFrom handlers' remaining k args st').
Proof.
  induction remaining as [|remaining IH]; intros k st st' Hs Hn; simpl;
    [done|].
  rewrite <- Hs. destruct (subscribers st !! k) as [h|]; [|by apply IH].
  apply IH; simpl; by rewrite ?same_calls, ?Hs, ?Hn.
Qed.

Lemma operationFn_ignores_throws operation args st :
  fst (operationFn handlers operation args st)
    = fst (operationFn handlers' operation args st)
  ∧ subscribers (snd (operationFn handlers operation args st))
    = subscribers (snd (operationFn handlers' operation args st))
  ∧ notified (snd (operationFn handlers operation args st))
    = notified (snd (operationFn handlers' operation args st)).
Proof.
  unfold operationFn. destruct (op_operation operation args); simpl; [|done].
  split; [done|]. unfold forEach.
  by apply forEachFrom_ignores_throws.
Qed.
End Throws.

Section SubscriberCalls.
Import JS Forge Bus.

Lemma unsubscribe_cons (h x : HandlerId) (l : list HandlerId) :
  unsubscribe h (x :: l)
  = if bool_decide (x = h) then l else x :: unsubscribe h l.
Proof.
  unfold unsubscribe; simpl. case_bool_decide; [done|].
  destruct (indexOf h l); simpl; done.
Qed.

Lemma filter_unsubscribe (h h' : HandlerId) (l : list HandlerId) :
  filter (λ x, x = h) (unsubscribe h' l)
  = if bool_decide (h' = h) then tail (filter (λ x, x = h) l)
    else filter (λ x, x = h) l.
Proof.
  induction l as [|x l IH]; [by case_bool_decide|].
  rewrite unsubscribe_cons. destruct (decide (x = h')) as [->|Hx].
  - rewrite bool_decide_eq_true_2 by done.
    case_bool_decide as Hh.
    + subst. by rewrite filter_cons_True.
    + by rewrite filter_cons_False.
  - rewrite (bool_decide_eq_false_2 (x = h')) by done.
    destruct (decide (x = h)) as [->|Hxh].
    + rewrite !filter_cons_True by done. rewrite IH.
      by rewrite bool_decide_eq_false_2 by congruence.
    + rewrite !filter_cons_False by done. exact IH.
Qed.

Lemma filter_not_subscribed (h : HandlerId) (l : list HandlerId) :
  h ∉ l → filter (λ x, x = h) l = [].
Proof.
  induction l as [|x l IH]; intros Hnot; [done|].
  apply not_elem_of_cons in Hnot as [Hne Hnot].
  rewrite filter_cons_False by congruence. by apply IH.
Qed.

Lemma callsOf_app h (t1 t2 : list Notification) :
  callsOf h (t1 ++ t2) = callsOf h t1 ++ callsOf h t2.
Proof. unfold callsOf. by rewrite filter_app, fmap_app. Qed.

Lemma callsOf_pass h args (l : list HandlerId) :
  callsOf h ((λ x, (x, args)) <$> l)
  = (λ _, args) <$> filter (λ x, x = h) l.
Proof.
  unfold callsOf. induction l as [|x l IH]; [done|].
  rewrite fmap_cons. destruct (decide (x = h)) as [->|Hx].
  - rewrite !filter_cons_True by done. rewrite !fmap_cons.
    f_equal. exact IH.
  - rewrite !filter_cons_False by done. exact IH.
Qed.

Lemma foldl_subscribe (added l : list HandlerId) :
  foldl applyCall l (CallSubscribe <$> added) = l ++ added.
Proof.
  revert l. induction added as [|x added IH]; intros l; simpl.
  - by rewrite app_nil_r.
  - rewrite IH. unfold subscribe. by rewrite <- app_assoc.
Qed.

(** A run without a call of an unsubscribe function is a run of subscribe
    calls. *)
Lemma subscribedBy_calls (calls : list BusCall) :
  (∀ y, CallUnsubscribe y ∉ calls) →
  calls = CallSubscribe <$> subscribedBy calls.
Proof.
  induction calls as [|c calls IH]; intros Hno; [done|].
  destruct c as [x|x].
  - simpl. f_equal. apply IH. intros y Hy. apply (Hno y). by right.
  - exfalso. apply (Hno x). by left.
Qed.

Lemma elem_of_subscribedBy (h : HandlerId) (calls : list BusCall) :
  h ∈ subscribedBy calls ↔ CallSubscribe h ∈ calls.
Proof.
  unfold subscribedBy. rewrite list_elem_of_omap. split.
  - intros (c & Hc & Heq). destruct c; by simplify_eq.
  - intros Hc. by exists (CallSubscribe h).
Qed.
End SubscriberCalls.

Section NotificationPass.
Import JS Forge Bus Samples MoreSamples.
Variable handlers : HandlerId → list Value → HandlerRun.

Lemma forEachFrom_split args a b : ∀ k st,
  forEachFrom handlers (a + b) k args st
  = forEachFrom handlers b (k + a) args (forEachFrom handlers a k args st).
Proof.
  induction a as [|a IH]; intros k st; simpl.
  - by rewrite Nat.add_0_r.
  - replace (k + S a)%nat with (S k + a)%nat by lia.
    destruct (subscribers st !! k); apply IH.
Qed.

(** A stretch of the pass over handlers that leave the list alone. *)
Lemma forEachFrom_quiet_segment args n : ∀ k st,
  (∀ h, h ∈ take n (drop k (subscribers st)) →
        run_calls (handlers h args) = []) →
  subscribers (forEachFrom handlers n k args st) = subscribers st
  ∧ notified (forEachFrom handlers n k args st)
    = notified st ++ ((λ h, (h, args)) <$> take n (drop k (subscribers st))).
Proof.
  induction n as [|n IH]; intros k st Hquiet; simpl.
  - by rewrite app_nil_r.
  - destruct (subscribers st !! k) as [h|] eqn:Hk.
    + rewrite (drop_S _ _ _ Hk) in Hquiet |- *. simpl in *.
      assert (Hsub : subscribers (notify handlers h args st) = subscribers st).
      { simpl. rewrite Hquiet; [done | by left]. }
      destruct (IH (S k) (notify handlers h args st)) as [Hs Hn].
      { rewrite Hsub. intros x Hx. apply Hquiet. by right. }
      rewrite Hs, Hn, Hsub. simpl. by rewrite <- app_assoc.
    + apply lookup_ge_None in Hk.
      destruct (IH (S k) st) as [Hs Hn].
      { rewrite drop_ge by lia. rewrite take_nil.
        intros x Hx. by apply elem_of_nil in Hx. }
      rewrite Hs, Hn. rewrite !drop_ge by lia. by rewrite !take_nil.
Qed.

(** The pass over handlers that only subscribe: the list grows at its end,
    so the entries the pass started with keep their indices; each of them is
    called, and what it throws goes to [console.error]. *)
Lemma forEachFrom_growing args (subscribed : HandlerId → list HandlerId)
    (orig : list HandlerId) remaining : ∀ k st extra,
  (∀ h, h ∈ orig → run_calls (handlers h args) = CallSubscribe <$> subscribed h) →
  subscribers st = orig ++ extra →
  (k + remaining)%nat = length orig →
  subscribers (forEachFrom handlers remaining k args st)
    = orig ++ extra ++ (drop k orig ≫= subscribed)
  ∧ notified (forEachFrom handlers remaining k args st)
    = notified st ++ ((λ h, (h, args)) <$> drop k orig)
  ∧ consoleErrors (forEachFrom handlers remaining k args st)
    = consoleErrors st ++ omap (thrownBy handlers args) (drop k orig).
Proof.
  induction remaining as [|remaining IH]; intros k st extra Hcalls Hsubs Hlen;
    simpl.
  - rewrite drop_ge by lia. simpl. by rewrite !app_nil_r.
  - destruct (lookup_lt_is_Some_2 orig k) as [h Hh]; [lia|].
    rewrite Hsubs, (lookup_app_l_Some _ _ _ _ Hh).
    destruct (IH (S k) (notify handlers h args st) (extra ++ subscribed h))
      as (Hs & Hn & He); [done | | lia |].
    { simpl. rewrite Hcalls by (by eapply list_elem_of_lookup_2).
      rewrite foldl_subscribe, Hsubs. by rewrite <- app_assoc. }
    rewrite Hs, Hn, He, (drop_S _ _ _ Hh). simpl.
    split_and!; [by rewrite <- !app_assoc | by rewrite <- !app_assoc |].
    unfold thrownBy at 2.
    destruct (run_completion (handlers h args)); simpl;
      [done | by rewrite <- app_assoc].
Qed.

(** The pass when no handler that is called calls an unsubscribe
    function. *)
Lemma forEach_growing args st :
  (∀ h y, h ∈ subscribers st →
          CallUnsubscribe y ∉ run_calls (handlers h args)) →
  subscribers (forEach handlers args st)
    = subscribers st
      ++ (subscribers st ≫= λ h, subscribedBy (run_calls (handlers h args)))
  ∧ notified (forEach handlers args st)
    = notified st ++ ((λ h, (h, args)) <$> subscribers st)
  ∧ consoleErrors (forEach handlers args st)
    = consoleErrors st ++ omap (thrownBy handlers args) (subscribers st).
Proof.
  intros Hquiet.
  destruct (forEachFrom_growing args
              (λ h, subscribedBy (run_calls (handlers h args)))
              (subscribers st) (length (subscribers st)) 0 st [])
    as (Hs & Hn & He).
  - intros h Hh. apply subscribedBy_calls. intros y. by apply Hquiet.
  - by rewrite app_nil_r.
  - lia.
  - unfold forEach. by rewrite Hs, Hn, He.
Qed.
End NotificationPass.

Section Caught.
Import JS Forge Bus Samples MoreSamples.

(** C8, as the claim states it, fails.  With the subscribers 0 and 1, where
    handler 0 calls its own unsubscribe function and then throws, the
    exception is caught and the operation function returns the result, but
    handler 1, which is subscribed before the call and after it, is not
    notified for this invocation. *)
Lemma throwing_unsubscriber_hides_next_subscriber :
  subscribers twoSubscribers = [0%nat; 1%nat]
  ∧ run_completion (zeroLeavesThrowing 0%nat [VNumber 1%float])
    = Throws (UserException (VString "boom"))
  ∧ fst (operationFn zeroLeavesThrowing echo [VNumber 1%float] twoSubscribers)
    = Returns (VNumber 1%float)
  ∧ consoleErrors
      (snd (operationFn zeroLeavesThrowing echo [VNumber 1%float]
              twoSubscribers))
    = [UserException (VString "boom")]
  ∧ notified
      (snd (operationFn zeroLeavesThrowing echo [VNumber 1%float]
              twoSubscribers))
    = [(0%nat, [VNumber 1%float])]
  ∧ subscribers
      (snd (operationFn zeroLeavesThrowing echo [VNumber 1%float]
              twoSubscribers))
    = [1%nat].
Proof. split_and!; reflexivity. Qed.

(** C8, amended.  When the operation returns and no handler that is
    subscribed calls an unsubscribe function while it runs (it may call
    subscribe), a handler that throws is caught: the operation function
    returns the operation's result, every handler that was subscribed when
    the function was called is called with the arguments, in subscription
    order, whichever of them throw (so also those after a handler that
    throws), and what was thrown goes to [console.error]. *)
Theorem throwing_handler_is_caught
    (handlers : HandlerId → list Value → HandlerRun) (operation : Operation)
    (args : list Value) (result : Value) (st : BusState) :
  op_operation operation args = Returns result →
  (∀ h y, h ∈ subscribers st →
          CallUnsubscribe y ∉ run_calls (handlers h args)) →
  fst (operationFn handlers operation args st) = Returns result
  ∧ notified (snd (operationFn handlers operation args st))
    = notified st ++ ((λ h, (h, args)) <$> subscribers st)
  ∧ consoleErrors (snd (operationFn handlers operation args st))
    = consoleErrors st ++ omap (thrownBy handlers args) (subscribers st)
  ∧ ∀ i h e, subscribers st !! i = Some h →
      run_completion (handlers h args) = Throws e →
      e ∈ consoleErrors (snd (operationFn handlers operation args st))
      ∧ ∀ j h', (i < j)%nat → subscribers st !! j = Some h' →
          (h', args) ∈ notified (snd (operationFn handlers operation args st)).
Proof.
  intros Hop Hquiet.
  destruct (forEach_growing handlers args st Hquiet) as (Hs & Hn & He).
  unfold operationFn. rewrite Hop; simpl.
  split_and!; [done | exact Hn | exact He |].
  intros i h e Hi Hthrow. split.
  - rewrite He. apply elem_of_app. right.
    apply list_elem_of_omap. exists h. split.
    + by eapply list_elem_of_lookup_2.
    + unfold thrownBy. by rewrite Hthrow.
  - intros j h' _ Hj. rewrite Hn. apply elem_of_app. right.
    apply list_elem_of_fmap. exists h'. split; [done|].
    by eapply list_elem_of_lookup_2.
Qed.

Lemma throwing_handler_is_caught_witness :
  fst (operationFn zeroInvitesThrowing echo [VNumber 1%float] twoSubscribers)
    = Returns (VNumber 1%float)
  ∧ notified
      (snd (operationFn zeroInvitesThrowing echo [VNumber 1%float]
              twoSubscribers))
    = [(0%nat, [VNumber 1%float]); (1%nat, [VNumber 1%float])]
  ∧ consoleErrors
      (snd (operationFn zeroInvitesThrowing echo [VNumber 1%float]
              twoSubscribers))
    = [UserException (VString "boom")].
Proof.
  destruct (throwing_handler_is_caught zeroInvitesThrowing echo
              [VNumber 1%float] (VNumber 1%float) twoSubscribers)
    as (Hres & Hcalls & Herrs & _).
  - reflexivity.
  - intros h y _ Hin. unfold zeroInvitesThrowing in Hin.
    case_bool_decide; simpl in Hin.
    + apply list_elem_of_singleton in Hin. discriminate.
    + by apply elem_of_nil in Hin.
  - split_and!; [exact Hres | exact Hcalls | exact Herrs].
Defined.
End Caught.

Section Delivery.
Import JS Forge Bus Samples.
Variable handlers : HandlerId → list Value → HandlerRun.
Variable operation : Operation.
Variable listener : HandlerId.
Hypothesis no_unsubscribe :
  ∀ x args y, CallUnsubscribe y ∉ run_calls (handlers x args).
Hypothesis not_invited :
  ∀ x args, CallSubscribe listener ∉ run_calls (handlers x args).

Lemma step_invoke args st :
  filter (λ x, x = listener)
    (subscribers (step handlers operation st (Invoke args)))
  = filter (λ x, x = listener) (subscribers st)
  ∧ callsOf listener (notified (step handlers operation st (Invoke args)))
    = callsOf listener (notified st)
      ++ match op_operation operation args with
         | Returns _ =>
             (λ _, args) <$> filter (λ x, x = listener) (subscribers st)
         | Throws _ => []
         end.
Proof.
  simpl. unfold operationFn.
  destruct (op_operation operation args) as [result|e]; simpl.
  - destruct (forEach_growing handlers args st) as (Hs & Hn & _).
    { intros h y _. apply no_unsubscribe. }
    split.
    + rewrite Hs, filter_app.
      rewrite (filter_not_subscribed listener (_ ≫= _)).
      * by rewrite app_nil_r.
      * intros Hin. apply list_elem_of_bind in Hin as (x & Hin & _).
        apply elem_of_subscribedBy in Hin. by apply not_invited in Hin.
    + by rewrite Hn, callsOf_app, callsOf_pass.
  - split; [done | by rewrite app_nil_r].
Qed.

(** A handler with [n] entries in the subscriber list is called [n] times
    for each invocation that commits. *)
Lemma run_subscribed_entries n actions : ∀ st,
  filter (λ x, x = listener) (subscribers st) = replicate n listener →
  Forall (λ a, a ≠ Subscribe listener ∧ a ≠ Unsubscribe listener) actions →
  filter (λ x, x = listener)
    (subscribers (run handlers operation st actions))
    = replicate n listener
  ∧ callsOf listener (notified (run handlers operation st actions))
    = callsOf listener (notified st)
      ++ (committed operation actions ≫= replicate n).
Proof.
  induction actions as [|a actions IH]; intros st Hentries Hactions.
  - simpl. by rewrite app_nil_r.
  - apply Forall_cons in Hactions as [[Hns Hnu] Hactions].
    unfold run in *. simpl foldl.
    destruct a as [h'|h'|args].
    + destruct (IH (step handlers operation st (Subscribe h'))) as [Hf Hc];
        [|done|].
      { simpl. unfold subscribe. rewrite filter_app, Hentries.
        rewrite filter_cons_False by congruence. by rewrite app_nil_r. }
      split; [exact Hf|]. rewrite Hc. done.
    + destruct (IH (step handlers operation st (Unsubscribe h'))) as [Hf Hc];
        [|done|].
      { simpl. rewrite filter_unsubscribe.
        by rewrite bool_decide_eq_false_2 by congruence. }
      split; [exact Hf|]. rewrite Hc. done.
    + destruct (step_invoke args st) as [Hs Hcalls].
      destruct (IH (step handlers operation st (Invoke args))) as [Hf Hc];
        [by rewrite Hs|done|].
      split; [exact Hf|]. rewrite Hc, Hcalls, Hentries. simpl.
      destruct (op_operation operation args); simpl.
      * by rewrite fmap_replicate, <- app_assoc.
      * by rewrite app_nil_r.
Qed.

(** While a handler is subscribed once, it is called once for each
    invocation that commits. *)
Lemma run_subscribed_once actions st :
  filter (λ x, x = listener) (subscribers st) = [listener] →
  Forall (λ a, a ≠ Subscribe listener ∧ a ≠ Unsubscribe listener) actions →
  filter (λ x, x = listener)
    (subscribers (run handlers operation st actions)) = [listener]
  ∧ callsOf listener (notified (run handlers operation st actions))
    = callsOf listener (notified st) ++ committed operation actions.
Proof.
  intros Hone Hactions.
  destruct (run_subscribed_entries 1 actions st Hone Hactions) as [Hf Hc].
  split; [exact Hf|]. rewrite Hc. f_equal.
  generalize (committed operation actions) as l.
  induction l as [|x l IH]; [done|].
  rewrite bind_cons, IH. done.
Qed.

(** While a handler is not subscribed, it is not called. *)
Lemma run_not_subscribed actions : ∀ st,
  filter (λ x, x = listener) (subscribers st) = [] →
  Forall (λ a, a ≠ Subscribe listener) actions →
  callsOf listener (notified (run handlers operation st actions))
  = callsOf listener (notified st).
Proof.
  induction actions as [|a actions IH]; intros st Hnone Hactions; [done|].
  apply Forall_cons in Hactions as [Hns Hactions].
  unfold run in *. simpl foldl.
  destruct a as [h'|h'|args].
  - rewrite IH; [done| |done].
    simpl. unfold subscribe. rewrite filter_app, Hnone.
    by rewrite filter_cons_False by congruence.
  - rewrite IH; [done| |done].
    simpl. rewrite filter_unsubscribe, Hnone. by case_bool_decide.
  - destruct (step_invoke args st) as [Hs Hcalls].
    rewrite IH; [|by rewrite Hs|done].
    rewrite Hcalls, Hnone. destruct (op_operation operation args); simpl;
      by rewrite app_nil_r.
Qed.

Lemma run_app st actions later :
  run handlers operation st (actions ++ later)
  = run handlers operation (run handlers operation st actions) later.
Proof. unfold run. apply foldl_app. Qed.
End Delivery.

Section DeliveryOrder.
Import JS Forge Bus Samples MoreSamples.

(** C7 (counterexample).  What a handler is handed is the argument list of
    the invocation, not its output: for the operation [(a) => 42] called
    with 1, the subscriber is called with 1.  And a handler that subscribed
    twice and did not unsubscribe is called twice for the one invocation
    that committed. *)
Lemma handler_gets_arguments_once_per_entry :
  (fst (operationFn silent answer [VNumber 1%float]
          (run silent answer (on emptyWorld answer) [Subscribe 0%nat]))
     = Returns (VNumber 42%float)
   ∧ notified (snd (operationFn silent answer [VNumber 1%float]
                      (run silent answer (on emptyWorld answer) [Subscribe 0%nat])))
     = [(0%nat, [VNumber 1%float])])
  ∧ committed echo [Subscribe 0%nat; Subscribe 0%nat; Invoke [VNumber 1%float]]
    = [[VNumber 1%float]]
  ∧ callsOf 0%nat
      (notified (run silent echo (on emptyWorld echo)
                   [Subscribe 0%nat; Subscribe 0%nat; Invoke [VNumber 1%float]]))
    = [[VNumber 1%float]; [VNumber 1%float]].
Proof. split_and!; reflexivity. Qed.

(** C7 (amended).  A handler that subscribes, not being subscribed before, is
    called with the arguments of every invocation that commits (the operation
    returned) from then on, once for each, in the order of the invocations,
    as long as it is neither subscribed again nor unsubscribed; once its
    unsubscribe function has been called it is not called again.  Other
    handlers may subscribe and unsubscribe in between.  While handlers are
    being notified they may subscribe handlers other than this one; none of
    them calls an unsubscribe function. *)
Theorem subscribed_handler_called_once_per_commit
    (handlers : HandlerId → list Value → HandlerRun) (operation : Operation)
    (st : BusState) (h : HandlerId) (actions later : list Action) :
  (∀ x args y, CallUnsubscribe y ∉ run_calls (handlers x args)) →
  (∀ x args, CallSubscribe h ∉ run_calls (handlers x args)) →
  h ∉ subscribers st →
  Forall (λ a, a ≠ Subscribe h ∧ a ≠ Unsubscribe h) actions →
  Forall (λ a, a ≠ Subscribe h) later →
  callsOf h (notified (run handlers operation st (Subscribe h :: actions)))
    = callsOf h (notified st) ++ committed operation actions
  ∧ callsOf h (notified (run handlers operation st
                           (Subscribe h :: actions ++ Unsubscribe h :: later)))
    = callsOf h (notified st) ++ committed operation actions.
Proof.
  intros Hquiet Hself Hnot Hactions Hlater.
  set (st1 := step handlers operation st (Subscribe h)).
  assert (Hone : filter (λ x, x = h) (subscribers st1) = [h]).
  { subst st1; simpl. unfold subscribe.
    rewrite filter_app, (filter_not_subscribed h _ Hnot).
    by rewrite filter_cons_True. }
  destruct (run_subscribed_once handlers operation h Hquiet Hself actions st1
              Hone Hactions) as [Hf Hc].
  split; [exact Hc|].
  change (run handlers operation st
            (Subscribe h :: actions ++ Unsubscribe h :: later))
    with (run handlers operation st1 (actions ++ Unsubscribe h :: later)).
  rewrite run_app.
  set (st2 := run handlers operation st1 actions) in *.
  change (run handlers operation st2 (Unsubscribe h :: later))
    with (run handlers operation
            (step handlers operation st2 (Unsubscribe h)) later).
  rewrite (run_not_subscribed handlers operation h Hquiet Hself later);
    [exact Hc| |done].
  simpl. rewrite filter_unsubscribe, Hf.
  by rewrite bool_decide_eq_true_2.
Qed.

Lemma subscribed_handler_called_once_per_commit_witness :
  callsOf 1%nat
    (notified (run zeroInvites echo oneSubscriber
       (Subscribe 1%nat
        :: [Invoke [VNumber 1%float]; Subscribe 3%nat; Invoke [VNumber 2%float]])))
    = [[VNumber 1%float]; [VNumber 2%float]]
  ∧ callsOf 1%nat
      (notified (run zeroInvites echo oneSubscriber
         (Subscribe 1%nat
          :: [Invoke [VNumber 1%float]; Subscribe 3%nat; Invoke [VNumber 2%float]]
             ++ Unsubscribe 1%nat :: [Invoke [VNumber 3%float]])))
    = [[VNumber 1%float]; [VNumber 2%float]].
Proof.
  apply (subscribed_handler_called_once_per_commit zeroInvites echo
           oneSubscriber 1%nat
           [Invoke [VNumber 1%float]; Subscribe 3%nat; Invoke [VNumber 2%float]]
           [Invoke [VNumber 3%float]]).
  - intros x args y Hin. unfold zeroInvites in Hin; simpl in Hin.
    case_bool_decide.
    + apply list_elem_of_singleton in Hin. discriminate.
    + by apply elem_of_nil in Hin.
  - intros x args Hin. unfold zeroInvites in Hin; simpl in Hin.
    case_bool_decide.
    + apply list_elem_of_singleton in Hin. discriminate.
    + by apply elem_of_nil in Hin.
  - simpl. intros Hin. apply list_elem_of_singleton in Hin. discriminate.
  - repeat constructor; discriminate.
  - repeat constructor; discriminate.
Defined.

(** A handler that calls its own unsubscribe function while it is notified
    takes the next subscriber's turn away: with the subscribers 0 and 1,
    handler 0 listening once, the invocation calls handler 0 only, and
    handler 1 is still subscribed afterwards. *)
Lemma unsubscribing_handler_hides_next_subscriber :
  notified (snd (operationFn zeroOnce echo [VNumber 1%float] twoSubscribers))
    = [(0%nat, [VNumber 1%float])]
  ∧ subscribers (snd (operationFn zeroOnce echo [VNumber 1%float] twoSubscribers))
    = [1%nat].
Proof. split; reflexivity. Qed.
End DeliveryOrder.

(** ** Drafts: createDraftHandler and mutate *)

Section Mutation.
Import JS Forge Draft Samples.








(** A mutator that changes a value: the change is recorded, [entity.save] is
    called, and [mutate] resolves to the draft. *)
Lemma mutate_with_a_change_saves :
  settled (mutate noEffect emptyWorld personHeap 0%nat birthday None)
    = Returns (Proxied 3%nat [])
  ∧ called (mutate noEffect emptyWorld personHeap 0%nat birthday None)
    = [1%nat]
  ∧ tracked (mutate noEffect emptyWorld personHeap 0%nat birthday None)
    = [ {| path := ["age"]; oldValue := VNumber 30%float;
           newValue := VNumber 31%float |} ].
Proof. split_and!; vm_compute; reflexivity. Qed.
End Mutation.

(* ===================================================================== *)
(** * Part III. Further properties of the code                             *)
(* ===================================================================== *)

(** ** applyTrait: when it returns and what it throws *)

Section TraitOutcomes.
Import JS Forge Samples.

Abbreviation addOnce :=
  (λ (acc : list string) (x : string),
     if bool_decide (x ∈ acc) then acc else acc ++ [x]).

Lemma setOf_foldl_prefix (l acc : list string) :
  ∃ more, foldl addOnce acc l = acc ++ more.
Proof.
  revert acc. induction l as [|x l IH]; intros acc; simpl.
  - exists []. by rewrite app_nil_r.
  - case_bool_decide; [apply IH|].
    destruct (IH (acc ++ [x])) as [more ->].
    exists (x :: more). by rewrite <- app_assoc.
Qed.

Lemma setOf_foldl_complete (l acc : list string) (x : string) :
  x ∈ acc ∨ x ∈ l → x ∈ foldl addOnce acc l.
Proof.
  revert acc. induction l as [|y l IH]; intros acc; simpl.
  - intros [Hx | Hx]; [done | by apply elem_of_nil in Hx].
  - intros [Hx | Hx]; apply IH.
    + left. case_bool_decide; [done | apply elem_of_app; by left].
    + apply elem_of_cons in Hx as [-> | Hx]; [|by right].
      left. case_bool_decide; [done|].
      apply elem_of_app. right. by apply list_elem_of_singleton.
Qed.

Lemma setOf_foldl_NoDup (l acc : list string) :
  NoDup acc → NoDup (foldl addOnce acc l).
Proof.
  revert acc. induction l as [|x l IH]; intros acc Hacc; simpl; [done|].
  apply IH. case_bool_decide as Hx; [done|].
  apply NoDup_app. split_and!; [done | | apply NoDup_singleton].
  intros y Hy Hy'. apply list_elem_of_singleton in Hy' as ->. done.
Qed.

Lemma setOf_spec (l : list string) :
  NoDup (setOf l) ∧ ∀ x, x ∈ setOf l ↔ x ∈ l.
Proof.
  split.
  - apply setOf_foldl_NoDup, NoDup_nil_2.
  - intros x. split; [apply setOf_elem|].
    intros Hx. apply setOf_foldl_complete. by right.
Qed.

Lemma firstMissing_none_inv (required : list string) (ps : gmap string Value) :
  firstMissing required ps = None →
  ∀ param, param ∈ required → hasProperty ps param = true.
Proof.
  induction required as [|p required IH]; simpl; intros Hnone q Hq.
  - by apply elem_of_nil in Hq.
  - destruct (hasProperty ps p) eqn:Hp; [|done].
    apply elem_of_cons in Hq as [-> | Hq]; [done | by apply IH].
Qed.

Lemma firstMissing_app_absent (present : list string) (x : string)
    (rest : list string) (ps : gmap string Value) :
  (∀ p, p ∈ present → hasProperty ps p = true) →
  hasProperty ps x = false →
  firstMissing (present ++ x :: rest) ps = Some x.
Proof.
  induction present as [|p present IH]; intros Hall Hx; simpl.
  - by rewrite Hx.
  - rewrite Hall by (by left).
    apply IH; [|done]. intros q Hq. apply Hall. by right.
Qed.

Lemma firstMissing_foldl (l acc : list string) (ps : gmap string Value) :
  (∀ p, p ∈ acc → hasProperty ps p = true) →
  firstMissing (foldl addOnce acc l) ps = firstMissing l ps.
Proof.
  revert acc. induction l as [|x l IH]; intros acc Hacc; simpl.
  - by apply firstMissing_none.
  - case_bool_decide as Hin.
    + rewrite IH by done. by rewrite Hacc.
    + destruct (hasProperty ps x) eqn:Hx.
      * apply IH. intros q Hq.
        apply elem_of_app in Hq as [Hq | Hq]; [by apply Hacc|].
        by apply list_elem_of_singleton in Hq as ->.
      * destruct (setOf_foldl_prefix l (acc ++ [x])) as [more ->].
        rewrite <- app_assoc. simpl.
        by apply firstMissing_app_absent.
Qed.

Lemma firstMissing_setOf (l : list string) (ps : gmap string Value) :
  firstMissing (setOf l) ps = firstMissing l ps.
Proof.
  apply firstMissing_foldl. intros p Hp. by apply elem_of_nil in Hp.
Qed.

Lemma checkParameters_accepted traitName trait parameters :
  parametersAccepted trait parameters →
  checkParameters traitName trait parameters = None.
Proof.
  unfold parametersAccepted, checkParameters.
  destruct (td_parameters trait) as [declared|]; [|done].
  destruct parameters as [ps|].
  - intros Hall. rewrite firstMissing_none; [done|].
    intros q Hq. apply Hall. by apply setOf_elem.
  - intros ->. reflexivity.
Qed.

Lemma checkParameters_none_inv traitName trait parameters :
  checkParameters traitName trait parameters = None →
  parametersAccepted trait parameters.
Proof.
  unfold parametersAccepted, checkParameters.
  destruct (td_parameters trait) as [declared|]; [|done].
  destruct parameters as [ps|].
  - destruct (firstMissing (setOf declared) ps) eqn:Hmissing; [done|].
    intros _. rewrite firstMissing_setOf in Hmissing.
    by apply firstMissing_none_inv.
  - case_bool_decide as Hlen; [done|]. intros _.
    destruct declared as [|x declared]; [done|].
    exfalso. apply Hlen.
    assert (Hx : x ∈ setOf (x :: declared)).
    { apply setOf_spec. by left. }
    destruct (setOf (x :: declared)); [by apply elem_of_nil in Hx|].
    simpl. lia.
Qed.

(** What a returning [applyTrait] was given and what it returns. *)
Lemma applyTrait_inv world cell traitName parameters updated :
  applyTrait world cell traitName parameters = Returns updated →
  ∃ trait implementation,
    lookupTrait world traitName = Found trait
    ∧ cell_primitiveType cell ∈ td_appliesTo trait
    ∧ parametersAccepted trait parameters
    ∧ td_implementation trait (default ∅ parameters) = Returns implementation
    ∧ updated
      = {| cell_name := cell_name cell;
           cell_primitiveType := cell_primitiveType cell;
           cell_version := cell_version cell;
           cell_validation := cell_validation cell;
           cell_errorMessage := cell_errorMessage cell;
           cell_traits :=
             <[traitName := traitInstance trait parameters implementation]>
               (cell_traits cell) |}.
Proof.
  unfold applyTrait.
  destruct (lookupTrait world traitName) as [trait| |] eqn:Htrait;
    [|done|done].
  case_bool_decide as Happlies; simpl; [|done].
  destruct (checkParameters traitName trait parameters) eqn:Hcheck; [done|].
  destruct (td_implementation trait (default ∅ parameters))
    as [implementation|e] eqn:Himpl; [|done].
  intros [= <-]. exists trait, implementation.
  split_and!; [done | done | by eapply checkParameters_none_inv | done | done].
Qed.

(** What [applyTrait] does once the catalogue gave a trait that applies to
    the cell and whose parameter check passes. *)
Lemma applyTrait_accepted world cell traitName trait parameters :
  lookupTrait world traitName = Found trait →
  cell_primitiveType cell ∈ td_appliesTo trait →
  parametersAccepted trait parameters →
  applyTrait world cell traitName parameters
  = match td_implementation trait (default ∅ parameters) with
    | Returns implementation =>
        Returns {| cell_name := cell_name cell;
                   cell_primitiveType := cell_primitiveType cell;
                   cell_version := cell_version cell;
                   cell_validation := cell_validation cell;
                   cell_errorMessage := cell_errorMessage cell;
                   cell_traits :=
                     <[traitName :=
                         traitInstance trait parameters implementation]>
                       (cell_traits cell) |}
    | Throws e => Throws e
    end.
Proof.
  intros Htrait Happlies Hparams. unfold applyTrait.
  rewrite Htrait, (bool_decide_eq_true_2 _ Happlies); simpl.
  by rewrite (checkParameters_accepted traitName trait parameters Hparams).
Qed.

(** X1. [applyTrait] returns a cell exactly when the catalogue gives a
    trait definition under the name, the definition lists the primitive
    type of the cell, every parameter it declares is in the parameter
    object (none being declared when no object is passed), and its
    implementation function returns. *)
Theorem applyTrait_returns_iff world cell traitName parameters :
  (∃ updated, applyTrait world cell traitName parameters = Returns updated)
  ↔ ∃ trait implementation,
      lookupTrait world traitName = Found trait
      ∧ cell_primitiveType cell ∈ td_appliesTo trait
      ∧ parametersAccepted trait parameters
      ∧ td_implementation trait (default ∅ parameters)
        = Returns implementation.
Proof.
  split.
  - intros [updated Hret].
    destruct (applyTrait_inv _ _ _ _ _ Hret)
      as (trait & implementation & ? & ? & ? & ? & _).
    by exists trait, implementation.
  - intros (trait & implementation & Htrait & Happlies & Hparams & Himpl).
    eexists.
    rewrite (applyTrait_accepted world cell traitName trait parameters)
      by done.
    by rewrite Himpl.
Qed.

(** X2. With a parameter object that does not have a declared parameter,
    neither as an own property nor as an inherited name, [applyTrait] throws
    the error that names the first such parameter, in the order of the
    declaration. *)
Theorem applyTrait_reports_first_missing_parameter
    world cell traitName trait ps before param after :
  lookupTrait world traitName = Found trait →
  cell_primitiveType cell ∈ td_appliesTo trait →
  td_parameters trait = Some (before ++ param :: after) →
  (∀ p, p ∈ before → hasProperty ps p = true) →
  hasProperty ps param = false →
  applyTrait world cell traitName (Some ps)
  = Throws (MissingRequiredParameter param traitName).
Proof.
  intros Htrait Happlies Hdeclared Hbefore Hparam. unfold applyTrait.
  rewrite Htrait, (bool_decide_eq_true_2 _ Happlies); simpl.
  unfold checkParameters. rewrite Hdeclared, firstMissing_setOf.
  by rewrite (firstMissing_app_absent before param after ps Hbefore Hparam).
Qed.

Lemma applyTrait_reports_first_missing_parameter_witness :
  applyTrait traitWorld numberCell "equalTo" (Some ∅)
  = Throws (MissingRequiredParameter "value" "equalTo").
Proof.
  apply (applyTrait_reports_first_missing_parameter traitWorld numberCell
           "equalTo" equalTo ∅ [] "value" []).
  - reflexivity.
  - simpl. apply elem_of_cons. right. apply list_elem_of_singleton.
    reflexivity.
  - reflexivity.
  - intros p Hp. by apply elem_of_nil in Hp.
  - reflexivity.
Defined.

(** X3. Without a parameter object, [applyTrait] throws for every trait
    that declares a parameter; the error lists the declared parameters, each
    once. *)
Theorem applyTrait_requires_parameter_object
    world cell traitName trait declared :
  traits world !! traitName = Some trait →
  cell_primitiveType cell ∈ td_appliesTo trait →
  td_parameters trait = Some declared →
  declared ≠ [] →
  ∃ required,
    applyTrait world cell traitName None
    = Throws (TraitRequiresParameters traitName required)
    ∧ NoDup required
    ∧ ∀ x, x ∈ required ↔ x ∈ declared.
Proof.
  intros Htrait Happlies Hdeclared Hne.
  exists (setOf declared). split; [|apply setOf_spec].
  unfold applyTrait.
  rewrite (lookupTrait_own _ _ _ Htrait),
    (bool_decide_eq_true_2 _ Happlies); simpl.
  unfold checkParameters. rewrite Hdeclared.
  rewrite bool_decide_eq_true_2; [done|].
  destruct declared as [|x declared]; [done|].
  assert (Hx : x ∈ setOf (x :: declared)) by (apply setOf_spec; by left).
  destruct (setOf (x :: declared)); [by apply elem_of_nil in Hx|].
  simpl. lia.
Qed.

Lemma applyTrait_requires_parameter_object_witness :
  ∃ required,
    applyTrait traitWorld numberCell "equalTo" None
    = Throws (TraitRequiresParameters "equalTo" required)
    ∧ NoDup required
    ∧ ∀ x, x ∈ required ↔ x ∈ ["value"].
Proof.
  apply (applyTrait_requires_parameter_object traitWorld numberCell
           "equalTo" equalTo ["value"]).
  - reflexivity.
  - simpl. set_solver.
  - reflexivity.
  - discriminate.
Defined.
End TraitOutcomes.

(** ** applyTrait, defineTrait and createWorld together *)

Section TraitComposition.
Import JS Forge Samples MoreSamples.

(** X4. When two traits can each be applied to a cell, they can be applied
    one after the other in both orders; under different names the two orders
    give the same cell, and under one name the later application replaces
    the earlier entry. *)
Theorem applyTrait_order_and_override world cell t1 t2 p1 p2 c1 c2 :
  applyTrait world cell t1 p1 = Returns c1 →
  applyTrait world cell t2 p2 = Returns c2 →
  ∃ c12 c21,
    applyTrait world c1 t2 p2 = Returns c12
    ∧ applyTrait world c2 t1 p1 = Returns c21
    ∧ (t1 ≠ t2 → c12 = c21)
    ∧ (t1 = t2 → c12 = c2 ∧ c21 = c1).
Proof.
  intros H1 H2.
  destruct (applyTrait_inv _ _ _ _ _ H1)
    as (d1 & i1 & Hd1 & Ha1 & Hs1 & Hi1 & ->).
  destruct (applyTrait_inv _ _ _ _ _ H2)
    as (d2 & i2 & Hd2 & Ha2 & Hs2 & Hi2 & ->).
  eexists _, _. split_and!.
  - rewrite (applyTrait_accepted world _ t2 d2 p2) by done.
    by rewrite Hi2.
  - rewrite (applyTrait_accepted world _ t1 d1 p1) by done.
    by rewrite Hi1.
  - intros Hne. simpl. f_equal. by apply insert_insert_ne.
  - intros ->. simpl. by rewrite !insert_insert_eq.
Qed.

Lemma applyTrait_order_and_override_witness :
  ∃ c1 c2 c12 c21,
    applyTrait twoTraitWorld numberCell "equalTo" (Some sevenParams)
      = Returns c1
    ∧ applyTrait twoTraitWorld numberCell "required" None = Returns c2
    ∧ applyTrait twoTraitWorld c1 "required" None = Returns c12
    ∧ applyTrait twoTraitWorld c2 "equalTo" (Some sevenParams) = Returns c21
    ∧ c12 = c21.
Proof.
  assert (H1 : ∃ c1, applyTrait twoTraitWorld numberCell "equalTo"
                       (Some sevenParams) = Returns c1)
    by (eexists; reflexivity).
  assert (H2 : ∃ c2, applyTrait twoTraitWorld numberCell "required" None
                     = Returns c2)
    by (eexists; reflexivity).
  destruct H1 as [c1 H1], H2 as [c2 H2].
  destruct (applyTrait_order_and_override twoTraitWorld numberCell
              "equalTo" "required" (Some sevenParams) None c1 c2 H1 H2)
    as (c12 & c21 & Ha & Hb & Hne & _).
  exists c1, c2, c12, c21. split_and!; [done..|]. apply Hne. discriminate.
Defined.

(** The world after a run of [defineTrait] calls. *)
Lemma foldl_defineTrait ts : ∀ world,
  traitsPrototype world = None →
  foldl defineTrait world ts
  = {| storageLocations := storageLocations world;
       traits := foldl (λ m trait, <[td_name trait := trait]> m)
                       (traits world) ts;
       traitsPrototype := None;
       cells := cells world; columns := columns world; rows := rows world;
       properties := properties world; entities := entities world;
       operations := operations world |}.
Proof.
  induction ts as [|t ts IH]; intros world Hproto; simpl.
  - destruct world; simpl in *. by rewrite Hproto.
  - by rewrite IH.
Qed.

(** The catalogue after a run of assignments none of which is under the
    name [__proto__]. *)
Lemma foldl_assignTrait ts :
  ∀ catalogue : gmap string TraitDefinition * option TraitDefinition,
    Forall (λ t, td_name t ≠ "__proto__") ts →
    foldl assignTrait catalogue ts
    = (foldl (λ m trait, <[td_name trait := trait]> m) catalogue.1 ts,
       catalogue.2).
Proof.
  induction ts as [|t ts IH]; intros catalogue Hall; simpl.
  - by destruct catalogue.
  - apply Forall_cons in Hall as [Hname Hall]. rewrite IH by done.
    unfold assignTrait. by rewrite bool_decide_eq_false_2.
Qed.

Lemma foldl_register_lookup ts : ∀ (m : gmap string TraitDefinition) n,
  foldl (λ m trait, <[td_name trait := trait]> m) m ts !! n
  = match last (filter (λ t, td_name t = n) ts) with
    | Some t => Some t
    | None => m !! n
    end.
Proof.
  induction ts as [|t ts IH] using rev_ind; intros m n; [done|].
  rewrite foldl_app; simpl. rewrite filter_app.
  destruct (decide (td_name t = n)) as [<-|Hne].
  - rewrite filter_cons_True by done. rewrite filter_nil, last_snoc.
    apply lookup_insert_eq.
  - rewrite filter_cons_False by done. rewrite filter_nil, app_nil_r.
    rewrite lookup_insert_ne by done. apply IH.
Qed.

(** X5. [createWorld] with initial traits gives the world that
    [defineTrait] builds from the world without traits, one definition after
    the other, exactly when no initial trait is named [__proto__]. *)
Theorem createWorld_is_defineTrait_fold storage ts :
  createWorld storage (Some ts)
  = foldl defineTrait (createWorld storage None) ts
  ↔ Forall (λ t, td_name t ≠ "__proto__") ts.
Proof.
  split.
  - intros Heq. apply Forall_forall. intros t Ht Hname.
    assert (Hown : traits (createWorld storage (Some ts)) !! "__proto__"
                   = None).
    { unfold createWorld; simpl. by apply assignTrait_no_own_proto. }
    rewrite Heq, foldl_defineTrait in Hown by done. simpl in Hown.
    rewrite foldl_register_lookup in Hown.
    apply list_elem_of_split in Ht as (l1 & l2 & ->).
    rewrite filter_app, filter_cons_True in Hown by done.
    rewrite last_app in Hown.
    destruct (last (t :: filter (λ t, td_name t = "__proto__") l2))
      eqn:Hlast; [done|].
    by apply last_None in Hlast.
  - intros Hall. rewrite foldl_defineTrait by done.
    unfold createWorld; simpl. by rewrite foldl_assignTrait.
Qed.

(** X6. In the world that [createWorld] returns from initial traits none
    of which is named [__proto__], the lookup of a name gives the last of
    the initial traits that has this name; when none has, it gives what a
    plain object inherits under this name, if anything. *)
Theorem createWorld_last_definition_wins storage ts n :
  Forall (λ t, td_name t ≠ "__proto__") ts →
  lookupTrait (createWorld storage (Some ts)) n
  = match last (filter (λ t, td_name t = n) ts) with
    | Some t => Found t
    | None =>
        if bool_decide (n ∈ objectPrototypeNames) then Inherited else Absent
    end.
Proof.
  intros Hall. unfold lookupTrait, createWorld; simpl.
  rewrite foldl_assignTrait by done; simpl.
  rewrite foldl_register_lookup.
  by destruct (last _).
Qed.

Lemma createWorld_last_definition_wins_witness :
  lookupTrait (createWorld [] (Some [equalTo; required; equalTo])) "equalTo"
  = Found equalTo
  ∧ lookupTrait (createWorld [] (Some [equalTo; required; equalTo]))
      "toString"
    = Inherited
  ∧ lookupTrait (createWorld [] (Some [equalTo; required; equalTo]))
      "minLength"
    = Absent.
Proof.
  assert (Hall : Forall (λ t, td_name t ≠ "__proto__")
                   [equalTo; required; equalTo])
    by (repeat (constructor; [discriminate|]); constructor).
  split_and!.
  - by rewrite (createWorld_last_definition_wins [] _ "equalTo" Hall).
  - by rewrite (createWorld_last_definition_wins [] _ "toString" Hall).
  - by rewrite (createWorld_last_definition_wins [] _ "minLength" Hall).
Defined.

(** X7. [defineTrait] leaves the world it is given as it was: when the
    lookup of the trait's name gave nothing there, the trait still cannot
    be applied through it.  Through the world that [defineTrait] returns
    the implementation function of the trait is called: when it returns,
    the cell carries this definition under the trait's name, and when it
    throws, [applyTrait] throws the same.  The own entries of the catalogue
    under other names are those of the given world. *)
Theorem defineTrait_then_applyTrait world definition cell parameters :
  lookupTrait world (td_name definition) = Absent →
  cell_primitiveType cell ∈ td_appliesTo definition →
  parametersSupplied definition parameters →
  applyTrait world cell (td_name definition) parameters
    = Throws (TraitNotFound (td_name definition))
  ∧ match td_implementation definition (default ∅ parameters) with
    | Returns implementation =>
        ∃ updated,
          applyTrait (defineTrait world definition) cell (td_name definition)
            parameters = Returns updated
          ∧ cell_traits updated !! td_name definition
            = Some (traitInstance definition parameters implementation)
    | Throws e =>
        applyTrait (defineTrait world definition) cell (td_name definition)
          parameters = Throws e
    end
  ∧ ∀ other, other ≠ td_name definition →
      traits (defineTrait world definition) !! other = traits world !! other.
Proof.
  intros Hnew Happlies Hparams. split_and!.
  - unfold applyTrait. by rewrite Hnew.
  - assert (Hfound : lookupTrait (defineTrait world definition)
                       (td_name definition) = Found definition)
      by apply lookupTrait_own, defineTrait_registers.
    destruct (td_implementation definition (default ∅ parameters))
      as [implementation|e] eqn:Himpl.
    + eexists. split.
      * by apply (applyTrait_returns _ cell _ definition parameters
                    implementation).
      * simpl. apply lookup_insert_eq.
    + by apply (applyTrait_implementation_throws _ cell _ definition
                  parameters e).
  - intros other Hother. unfold defineTrait; simpl.
    by rewrite lookup_insert_ne.
Qed.

Lemma defineTrait_then_applyTrait_witness :
  applyTrait emptyWorld nameCell "minLength" (Some lengthTwo)
    = Throws (TraitNotFound "minLength")
  ∧ applyTrait (defineTrait emptyWorld minLength) nameCell "minLength"
      (Some lengthTwo) = Throws TypeError.
Proof.
  destruct (defineTrait_then_applyTrait emptyWorld minLength nameCell
              (Some lengthTwo)) as (Hold & Hnew & _).
  - reflexivity.
  - simpl. apply list_elem_of_singleton. reflexivity.
  - simpl. intros param Hparam.
    apply list_elem_of_singleton in Hparam as ->. by eexists.
  - split; [exact Hold | exact Hnew].
Defined.
End TraitComposition.

(** ** The helpers that build a cell and apply traits by name *)

Section CellHelpers.
Import JS Forge Cells Samples MoreSamples.

Lemma parametersAccepted_none trait :
  parametersAccepted trait None
  ↔ td_parameters trait = None ∨ td_parameters trait = Some [].
Proof.
  unfold parametersAccepted. destruct (td_parameters trait) as [declared|].
  - split; [intros ->; by right | intros [|[= ->]]; done].
  - split; [by left | done].
Qed.

Lemma applyTraits_inv world traitNames : ∀ cell result,
  applyTraits world cell traitNames = Returns result →
  cell_name result = cell_name cell
  ∧ cell_primitiveType result = cell_primitiveType cell
  ∧ cell_version result = cell_version cell
  ∧ (∀ t, t ∈ traitNames →
       ∃ d implementation,
         appliesByName world (cell_primitiveType cell) t d
         ∧ td_implementation d ∅ = Returns implementation
         ∧ cell_traits result !! t
           = Some (traitInstance d None implementation))
  ∧ (∀ t, t ∉ traitNames → cell_traits result !! t = cell_traits cell !! t).
Proof.
  induction traitNames as [|t rest IH]; intros cell result; simpl.
  - intros [= <-]. split_and!; try done.
    intros t Ht. by apply elem_of_nil in Ht.
  - destruct (applyTrait world cell t None) as [cell'|e] eqn:Happly; [|done].
    intros Hrest.
    destruct (applyTrait_inv _ _ _ _ _ Happly)
      as (d & i & Hd & Ha & Hs & Hi & ->).
    destruct (IH _ _ Hrest) as (Hn & Hp & Hv & Hin & Hout); simpl in *.
    split_and!; try done.
    + intros t' Ht'. destruct (decide (t' ∈ rest)) as [Hr|Hr].
      * destruct (Hin t' Hr) as (d' & i' & Hd' & Hi' & Hl). by exists d', i'.
      * apply elem_of_cons in Ht' as [-> | Ht']; [|done].
        exists d, i. split_and!.
        -- split_and!; [done | done | by apply parametersAccepted_none].
        -- done.
        -- rewrite (Hout t Hr). apply lookup_insert_eq.
    + intros t' Ht'. apply not_elem_of_cons in Ht' as [Hne Ht'].
      rewrite (Hout t' Ht'). by rewrite lookup_insert_ne.
Qed.

Lemma applyTraits_app world before after : ∀ cell,
  applyTraits world cell (before ++ after)
  = match applyTraits world cell before with
    | Returns cell' => applyTraits world cell' after
    | Throws e => Throws e
    end.
Proof.
  induction before as [|b before IH]; intros cell; simpl; [done|].
  destruct (applyTrait world cell b None); [apply IH | done].
Qed.

(** X8. When [string] returns, the cell is a string cell named
    [string_] followed by the unique id, with version 1, whose trait map has
    exactly the given names; under each of them the catalogue gives a trait
    that lists ['string'] and declares no parameter, instantiated with the
    empty parameter object and with what its implementation function
    returns for it. *)
Theorem string_cell_returns world uniqueId traitNames cell :
  string_cell world uniqueId traitNames = Returns cell →
  cell_name cell = "string_" +:+ uniqueId
  ∧ cell_primitiveType cell = PString
  ∧ cell_version cell = 1%float
  ∧ (∀ t, t ∈ traitNames →
       ∃ d implementation,
         appliesByName world PString t d
         ∧ td_implementation d ∅ = Returns implementation
         ∧ cell_traits cell !! t = Some (traitInstance d None implementation))
  ∧ (∀ t, t ∉ traitNames → cell_traits cell !! t = None).
Proof.
  unfold string_cell; simpl. intros Hret.
  destruct (applyTraits_inv _ _ _ _ Hret) as (Hn & Hp & Hv & Hin & Hout).
  simpl in *. split_and!; done.
Qed.

Lemma string_cell_returns_witness :
  ∃ cell implementation,
    string_cell twoTraitWorld "k3x9" ["required"] = Returns cell
    ∧ cell_name cell = "string_k3x9"
    ∧ cell_primitiveType cell = PString
    ∧ td_implementation required ∅ = Returns implementation
    ∧ cell_traits cell !! "required"
      = Some (traitInstance required None implementation)
    ∧ cell_traits cell !! "equalTo" = None.
Proof.
  assert (H : ∃ cell, string_cell twoTraitWorld "k3x9" ["required"]
                      = Returns cell) by (eexists; reflexivity).
  destruct H as [cell H].
  destruct (string_cell_returns twoTraitWorld "k3x9" ["required"] cell H)
    as (Hn & Hp & _ & Hin & Hout).
  destruct (Hin "required") as (d & i & (Hd & _) & Hi & Hl); [by left|].
  assert (Hreq : lookupTrait twoTraitWorld "required" = Found required)
    by reflexivity.
  assert (d = required) as -> by congruence.
  exists cell, i. split_and!; [done | done | done | done | done | ].
  apply Hout. intros Hin'. apply list_elem_of_singleton in Hin'.
  discriminate.
Defined.

(** X9. [collection] builds a cell of primitive type ['any']: when it
    returns for a list of trait names, it throws for this list followed by
    the name of a trait that does not list ['any'], whatever comes after,
    and the error names this trait. *)
Theorem collection_needs_traits_for_any
    world uniqueId itemCell before t after d cell :
  collection world uniqueId itemCell before = Returns cell →
  lookupTrait world t = Found d →
  PAny ∉ td_appliesTo d →
  collection world uniqueId itemCell (before ++ t :: after)
  = Throws (TraitNotApplicable t PAny).
Proof.
  unfold collection. intros Hbefore Hd Hnot.
  rewrite applyTraits_app, Hbefore.
  destruct (applyTraits_inv _ _ _ _ Hbefore) as (_ & Hp & _).
  simpl in *. unfold applyTrait. rewrite Hd, Hp.
  by rewrite bool_decide_eq_false_2.
Qed.

Lemma collection_needs_traits_for_any_witness :
  collection threeTraitWorld "k3x9" numberCell ["nonEmpty"; "required"]
  = Throws (TraitNotApplicable "required" PAny).
Proof.
  assert (H : ∃ cell, collection threeTraitWorld "k3x9" numberCell ["nonEmpty"]
                      = Returns cell) by (eexists; reflexivity).
  destruct H as [cell H].
  apply (collection_needs_traits_for_any threeTraitWorld "k3x9" numberCell
           ["nonEmpty"] "required" [] required cell).
  - exact H.
  - reflexivity.
  - simpl. intros Hin.
    repeat (apply elem_of_cons in Hin as [Hin|Hin]; [discriminate|]).
    by apply elem_of_nil in Hin.
Defined.
End CellHelpers.

(** ** Subscribers: the list and the notification pass *)

Section SubscriberList.
Import JS Forge Bus Samples MoreSamples.

Lemma unsubscribe_absent (h : HandlerId) (l : list HandlerId) :
  h ∉ l → unsubscribe h l = l.
Proof.
  induction l as [|x l IH]; intros Hnot; [done|].
  apply not_elem_of_cons in Hnot as [Hne Hnot].
  rewrite unsubscribe_cons, bool_decide_eq_false_2 by congruence.
  by rewrite IH.
Qed.

Lemma unsubscribe_first (h : HandlerId) (pre post : list HandlerId) :
  h ∉ pre → unsubscribe h (pre ++ h :: post) = pre ++ post.
Proof.
  induction pre as [|x pre IH]; intros Hnot; simpl.
  - by rewrite unsubscribe_cons, bool_decide_eq_true_2.
  - apply not_elem_of_cons in Hnot as [Hne Hnot].
    rewrite unsubscribe_cons, bool_decide_eq_false_2 by congruence.
    by rewrite IH.
Qed.

(** X10. An unsubscribe function removes the first entry of its handler and
    nothing else: the list stays as it is when the handler has no entry;
    otherwise the entries before and after the first one keep their order;
    and subscribing a handler that had no entry and then unsubscribing it
    gives the list back. *)
Theorem unsubscribe_removes_first_entry (h : HandlerId) (l : list HandlerId) :
  (h ∉ l → unsubscribe h l = l)
  ∧ (∀ pre post, l = pre ++ h :: post → h ∉ pre →
       unsubscribe h l = pre ++ post)
  ∧ (h ∉ l → unsubscribe h (subscribe h l) = l).
Proof.
  split_and!.
  - apply unsubscribe_absent.
  - intros pre post -> Hpre. by apply unsubscribe_first.
  - intros Hnot. unfold subscribe.
    rewrite (unsubscribe_first h l [] Hnot). apply app_nil_r.
Qed.
End SubscriberList.

Section PassEdges.
Import JS Forge Bus Samples MoreSamples.

(** X11. A handler that calls its own unsubscribe function while it is
    notified makes the pass go by the subscriber after it: the handlers
    before it, the handler itself and the handlers after the next one are
    called, the next one is not, and it is still subscribed afterwards.
    The other handlers leave the list alone. *)
Theorem unsubscribing_handler_skips_next
    (handlers : HandlerId → list Value → HandlerRun) (operation : Operation)
    (args : list Value) (result : Value) (st : BusState)
    (pre post : list HandlerId) (h next : HandlerId) :
  op_operation operation args = Returns result →
  subscribers st = pre ++ h :: next :: post →
  run_calls (handlers h args) = [CallUnsubscribe h] →
  (∀ x, x ∈ pre ++ post → run_calls (handlers x args) = []) →
  fst (operationFn handlers operation args st) = Returns result
  ∧ notified (snd (operationFn handlers operation args st))
    = notified st ++ ((λ x, (x, args)) <$> pre ++ h :: post)
  ∧ subscribers (snd (operationFn handlers operation args st))
    = pre ++ next :: post.
Proof.
  intros Hop Hsubs Hself Hquiet.
  assert (Hpre : h ∉ pre).
  { intros Hin. rewrite Hquiet in Hself; [done|]. apply elem_of_app. by left. }
  unfold operationFn. rewrite Hop. split; [done|].
  cbn [snd]. unfold forEach. rewrite Hsubs.
  replace (length (pre ++ h :: next :: post))
    with (length pre + (1 + (1 + length post)))%nat
    by (rewrite length_app; simpl; lia).
  rewrite (forEachFrom_split handlers args (length pre)).
  destruct (forEachFrom_quiet_segment handlers args (length pre) 0 st)
    as [Hs1 Hn1].
  { rewrite Hsubs, drop_0, take_app_length. intros x Hx. apply Hquiet.
    apply elem_of_app. by left. }
  rewrite Hsubs, drop_0, take_app_length in Hn1.
  set (st1 := forEachFrom handlers (length pre) 0 args st) in *.
  rewrite (forEachFrom_split handlers args 1).
  assert (Hstep : forEachFrom handlers 1 (0 + length pre) args st1
                  = notify handlers h args st1).
  { cbn [forEachFrom]. rewrite Hs1, Hsubs.
    by rewrite (list_lookup_middle pre (next :: post) h (0 + length pre)). }
  rewrite Hstep. clear Hstep.
  set (st2 := notify handlers h args st1).
  assert (Hs2 : subscribers st2 = pre ++ next :: post).
  { subst st2. cbn [notify subscribers]. rewrite Hself, Hs1, Hsubs.
    cbn [foldl applyCall]. by apply unsubscribe_first. }
  assert (Hpost : take (1 + length post)
                    (drop (0 + length pre + 1) (pre ++ next :: post)) = post).
  { replace (0 + length pre + 1)%nat with (length pre + 1)%nat by lia.
    rewrite drop_app_add. cbn [drop Nat.add]. rewrite drop_0.
    apply take_ge. lia. }
  destruct (forEachFrom_quiet_segment handlers args (1 + length post)
              (0 + length pre + 1) st2) as [Hs3 Hn3].
  { rewrite Hs2, Hpost. intros x Hx. apply Hquiet, elem_of_app. by right. }
  rewrite Hs3, Hn3, Hs2, Hpost. split; [|done].
  subst st2. cbn [notify notified]. rewrite Hn1.
  rewrite fmap_app, fmap_cons. by rewrite <- !app_assoc.
Qed.

Lemma unsubscribing_handler_skips_next_witness :
  fst (operationFn zeroOnce echo [VNumber 1%float] twoSubscribers)
    = Returns (VNumber 1%float)
  ∧ notified (snd (operationFn zeroOnce echo [VNumber 1%float] twoSubscribers))
    = [(0%nat, [VNumber 1%float])]
  ∧ subscribers (snd (operationFn zeroOnce echo [VNumber 1%float] twoSubscribers))
    = [1%nat].
Proof.
  apply (unsubscribing_handler_skips_next zeroOnce echo [VNumber 1%float]
           (VNumber 1%float) twoSubscribers [] [] 0%nat 1%nat).
  - reflexivity.
  - reflexivity.
  - reflexivity.
  - intros x Hx. by apply elem_of_nil in Hx.
Defined.



(** X13. What handlers throw has no effect on the operation function: for
    two families of handlers that make the same subscribe and unsubscribe
    calls and differ only in how they complete, every sequence of
    subscriptions, unsubscriptions and invocations ends with the same
    subscribers and the same calls of handlers. *)
Theorem run_ignores_throws
    (handlers handlers' : HandlerId → list Value → HandlerRun)
    (operation : Operation) (actions : list Action) (st st' : BusState) :
  (∀ h args, run_calls (handlers h args) = run_calls (handlers' h args)) →
  subscribers st = subscribers st' →
  notified st = notified st' →
  subscribers (run handlers operation st actions)
    = subscribers (run handlers' operation st' actions)
  ∧ notified (run handlers operation st actions)
    = notified (run handlers' operation st' actions).
Proof.
  intros Hsame. revert st st'.
  induction actions as [|a actions IH]; intros st st' Hs Hn; [done|].
  unfold run in *. simpl foldl.
  assert (Hstep : subscribers (step handlers operation st a)
                    = subscribers (step handlers' operation st' a)
                  ∧ notified (step handlers operation st a)
                    = notified (step handlers' operation st' a)).
  { destruct a as [h|h|args]; simpl; [by rewrite Hs, Hn..|].
    unfold operationFn. destruct (op_operation operation args); simpl; [|done].
    unfold forEach. rewrite Hs.
    by apply forEachFrom_ignores_throws. }
  destruct Hstep as [Hs' Hn']. by apply IH.
Qed.

Lemma run_ignores_throws_witness :
  subscribers (run silent echo (on emptyWorld echo)
                 [Subscribe 0%nat; Subscribe 1%nat; Invoke [VNull]])
    = subscribers (run zeroThrows echo (on emptyWorld echo)
                     [Subscribe 0%nat; Subscribe 1%nat; Invoke [VNull]])
  ∧ notified (run silent echo (on emptyWorld echo)
                [Subscribe 0%nat; Subscribe 1%nat; Invoke [VNull]])
    = notified (run zeroThrows echo (on emptyWorld echo)
                  [Subscribe 0%nat; Subscribe 1%nat; Invoke [VNull]]).
Proof.
  apply (run_ignores_throws silent zeroThrows echo
           [Subscribe 0%nat; Subscribe 1%nat; Invoke [VNull]]
           (on emptyWorld echo) (on emptyWorld echo)).
  - intros h args. reflexivity.
  - reflexivity.
  - reflexivity.
Defined.
End PassEdges.

(** ** Drafts: what a mutator can reach *)

Section DraftStore.
Import JS Forge Draft Entities Samples MoreSamples.

Lemma alloc_new (h : Heap) (o : Obj) : h !! (alloc h o).1 = None.
Proof. unfold alloc; simpl. apply not_elem_of_dom, is_fresh. Qed.

Lemma alloc_lookup_new (h : Heap) (o : Obj) :
  (alloc h o).2 !! (alloc h o).1 = Some o.
Proof. unfold alloc; simpl. apply lookup_insert_eq. Qed.

Lemma alloc_lookup_old (h : Heap) (o : Obj) (a : loc) :
  is_Some (h !! a) → (alloc h o).2 !! a = h !! a.
Proof.
  intros Ha. pose proof (alloc_new h o) as Hnew.
  unfold alloc in *; simpl in *. apply lookup_insert_ne.
  intros <-. rewrite Hnew in Ha. by destruct Ha.
Qed.

(** The store in which the mutator starts: the given store with the two
    copies of the entity. *)
Lemma draftRun_start h entity mutator :
  ∃ h2,
    draftRun h entity mutator
    = (fresh (dom h),
       runMutator (fresh (dom h))
         {| heap := h2; changes := []; trapWrites := [] |} mutator)
    ∧ h2 !! fresh (dom h) = Some (spread h entity)
    ∧ ∀ a, is_Some (h !! a) → h2 !! a = h !! a.
Proof.
  set (h1 := <[fresh (dom h) := spread h entity]> h).
  exists (<[fresh (dom h1) := spread h1 entity]> h1).
  assert (Hnew : h1 !! fresh (dom h) = Some (spread h entity))
    by apply lookup_insert_eq.
  assert (Hold : ∀ a, is_Some (h !! a) → h1 !! a = h !! a).
  { intros a Ha. apply (alloc_lookup_old h (spread h entity) a Ha). }
  assert (Hold2 : ∀ a, is_Some (h1 !! a) →
            <[fresh (dom h1) := spread h1 entity]> h1 !! a = h1 !! a).
  { intros a Ha. apply (alloc_lookup_old h1 (spread h1 entity) a Ha). }
  split_and!.
  - reflexivity.
  - rewrite Hold2 by (by rewrite Hnew). exact Hnew.
  - intros a Ha. rewrite Hold2 by (by rewrite Hold). by apply Hold.
Qed.

Lemma setProp_lookup_ne h a b prop value :
  a ≠ b → setProp h a prop value !! b = h !! b.
Proof.
  intros Hne. unfold setProp, defineProp.
  destruct (_ && _); [done | by apply lookup_insert_ne].
Qed.

Lemma propsOf_setProp h a prop value :
  prop ≠ "__proto__" →
  propsOf (setProp h a prop value) a = <[prop := value]> (propsOf h a).
Proof.
  intros Hname. unfold setProp, defineProp.
  rewrite (bool_decide_eq_false_2 _ Hname). cbn [andb].
  unfold propsOf at 1. by rewrite lookup_insert_eq.
Qed.

Lemma getProp_setProp h a prop value :
  prop ≠ "__proto__" →
  getProp (setProp h a prop value) a prop = value.
Proof.
  intros Hname. unfold getProp.
  by rewrite propsOf_setProp, lookup_insert_eq.
Qed.

Lemma propsOf_lookup_eq (h h' : Heap) a :
  h' !! a = h !! a → propsOf h' a = propsOf h a.
Proof. unfold propsOf. by intros ->. Qed.

Lemma kindOf_lookup_eq (h h' : Heap) a :
  h' !! a = h !! a → kindOf h' a = kindOf h a.
Proof. unfold kindOf. by intros ->. Qed.

(** A mutator of top-level assignments returns and writes to the target of
    the draft only. *)
Lemma runMutator_topLevel root mutator : ∀ st,
  Forall topLevel mutator →
  fst (runMutator root st mutator) = Returns ()
  ∧ (∀ a, a ≠ root →
          heap (snd (runMutator root st mutator)) !! a = heap st !! a).
Proof.
  induction mutator as [|s mutator IH]; intros st Hall; [done|].
  apply Forall_cons in Hall as [Hs Hall].
  destruct s as [[|? ?] prop value|e]; try done. simpl.
  destruct (IH (createDraftHandler_set st root [] prop value) Hall)
    as (Hret & Hother).
  split; [done|].
  intros a Ha. rewrite (Hother a Ha). simpl.
  by apply setProp_lookup_ne.
Qed.

(** Under names other than [__proto__] it leaves in the target the values
    it assigned. *)
Lemma runMutator_topLevel_props root mutator : ∀ st,
  Forall topLevel mutator →
  Forall (λ s, ∀ objPath value, s ≠ Assign objPath "__proto__" value)
         mutator →
  propsOf (heap (snd (runMutator root st mutator))) root
  = foldl (λ m s, match s with
                  | Assign [] prop value => <[prop := value]> m
                  | _ => m
                  end) (propsOf (heap st) root) mutator.
Proof.
  induction mutator as [|s mutator IH]; intros st Hall Hnames; [done|].
  apply Forall_cons in Hall as [Hs Hall].
  apply Forall_cons in Hnames as [Hname Hnames].
  destruct s as [[|? ?] prop value|e]; try done. simpl.
  rewrite (IH (createDraftHandler_set st root [] prop value) Hall Hnames).
  simpl. rewrite propsOf_setProp; [done|].
  intros ->. by apply (Hname [] value).
Qed.

(** The store that [mutate] leaves is the store in which the mutator
    ended, when the functions it calls leave the store alone. *)
Lemma mutate_finalHeap
    (call : loc → Heap → Heap * Outcome unit) (world : World) (h : Heap)
    (entity : loc) (mutator : list Stmt) (operationName : option string) :
  (∀ f h', fst (call f h') = h') →
  finalHeap (mutate call world h entity mutator operationName)
  = heap (snd (snd (draftRun h entity mutator))).
Proof.
  intros Hcall. unfold mutate.
  destruct (draftRun h entity mutator) as [target [[[]|e] st]];
    cbn [fst snd]; [|done].
  case_bool_decide; [done|].
  destruct (getProp (heap st) entity "save") as [| | | | |f]; try done.
  destruct (isFunction (heap st) (VRef f)); [|done].
  specialize (Hcall f (heap st)).
  destruct (call f (heap st)) as [h3 completion]. cbn [finalHeap fst] in *.
  done.
Qed.

(** X14. A mutator that assigns to properties of the draft itself changes
    no object that existed before the call of [mutate]: the entity it was
    given, with every other object, is afterwards as it was, whether
    [mutate] resolves to the entity or to the draft.  The functions that
    [mutate] calls are taken to leave the store alone. *)
Theorem mutate_top_level_writes_stay_in_draft
    (call : loc → Heap → Heap * Outcome unit) (world : World) (h : Heap)
    (entity : loc) (mutator : list Stmt) (operationName : option string)
    (a : loc) :
  (∀ f h', fst (call f h') = h') →
  Forall topLevel mutator →
  is_Some (h !! a) →
  finalHeap (mutate call world h entity mutator operationName) !! a = h !! a.
Proof.
  intros Hcall Htop Ha. rewrite mutate_finalHeap by done.
  destruct (draftRun_start h entity mutator) as (h2 & -> & Htarget & Hold).
  destruct (runMutator_topLevel (fresh (dom h)) mutator
              {| heap := h2; changes := []; trapWrites := [] |} Htop)
    as (_ & Hother).
  cbn [fst snd]. rewrite Hother; [by apply Hold|].
  intros ->. destruct Ha as [o Ho].
  by rewrite (not_elem_of_dom_1 h (fresh (dom h)) (is_fresh (dom h))) in Ho.
Qed.

Lemma mutate_top_level_writes_stay_in_draft_witness :
  finalHeap (mutate noEffect emptyWorld personHeap 0%nat birthday None)
    !! 0%nat
  = personHeap !! 0%nat.
Proof.
  apply (mutate_top_level_writes_stay_in_draft noEffect emptyWorld personHeap
           0%nat birthday None 0%nat).
  - intros f h'. reflexivity.
  - repeat constructor.
  - vm_compute. by eexists.
Defined.
End DraftStore.

Section DraftReach.
Import JS Forge Draft Entities Samples MoreSamples.

(** X15. An assignment to a property of a nested object of the draft,
    under a name other than [__proto__], is written to the object that the
    entity itself holds there: the draft is a copy of the entity one level
    deep, and below that level it shares the entity's objects. *)
Theorem mutate_writes_through_nested_objects
    (call : loc → Heap → Heap * Outcome unit) (world : World) (h : Heap)
    (entity : loc) (operationName : option string)
    (p q : string) (v : Value) (a : loc) (o : Obj) :
  (∀ f h', fst (call f h') = h') →
  getProp h entity p = VRef a →
  h !! a = Some o →
  obj_kind o = KObject →
  isMethodName p = false →
  q ≠ "__proto__" →
  getProp (finalHeap (mutate call world h entity [Assign [p] q v]
                        operationName)) a q
  = v.
Proof.
  intros Hcall Hp Ha Hkind Hname Hq. rewrite mutate_finalHeap by done.
  destruct (draftRun_start h entity [Assign [p] q v])
    as (h2 & -> & Htarget & Hold).
  cbn [fst snd runMutator runStmt heap resolve readProp].
  assert (Hvalue : getProp h2 (fresh (dom h)) p = VRef a).
  { unfold getProp, propsOf. rewrite Htarget. exact Hp. }
  assert (Hkind2 : kindOf h2 a = KObject).
  { unfold kindOf. rewrite (Hold a) by (by eexists). by rewrite Ha. }
  unfold createDraftHandler_get.
  rewrite Hvalue, Hname. unfold isFunction, isPlainObject. rewrite Hkind2.
  cbn [orb]. cbn [fst snd heap createDraftHandler_set].
  by apply getProp_setProp.
Qed.

Lemma mutate_writes_through_nested_objects_witness :
  getProp (finalHeap (mutate noEffect emptyWorld personHeap 0%nat
                        [Assign ["address"] "city" (VString "Rome")] None))
          2%nat "city"
  = VString "Rome".
Proof.
  apply (mutate_writes_through_nested_objects noEffect emptyWorld personHeap
           0%nat None "address" "city" (VString "Rome") 2%nat
           {| obj_kind := KObject;
              obj_props := {[ "city" := VString "Oslo" ]} |}).
  - intros f h'. reflexivity.
  - reflexivity.
  - reflexivity.
  - reflexivity.
  - reflexivity.
  - discriminate.
Defined.

Lemma resolve_plain (h : Heap) (objPath : list string) : ∀ v target path,
  resolve h (Plain v) objPath ≠ Returns (Proxied target path).
Proof.
  induction objPath as [|prop rest IH]; intros v target path; simpl; [done|].
  destruct v; simpl; try done; apply IH.
Qed.

(** The path that a nested proxy closes over is the path of the proxy it was
    read from, followed by the properties read. *)
Lemma resolve_path (h : Heap) (objPath : list string) :
  ∀ target path target' path',
  resolve h (Proxied target path) objPath = Returns (Proxied target' path') →
  path' = path ++ objPath.
Proof.
  induction objPath as [|prop rest IH]; intros target path target' path';
    simpl.
  - intros [= _ <-]. by rewrite app_nil_r.
  - unfold createDraftHandler_get.
    destruct (isFunction h (getProp h target prop) || isMethodName prop).
    { intros Hr. by apply resolve_plain in Hr. }
    destruct (isPlainObject h (getProp h target prop)).
    + destruct (getProp h target prop) as [| | | | |a];
        try (intros Hr; by apply resolve_plain in Hr).
      intros Hr. apply IH in Hr as ->. by rewrite <- app_assoc.
    + intros Hr. by apply resolve_plain in Hr.
Qed.

Lemma runMutator_changes (all : list Stmt) root mutator : ∀ st,
  (∀ s, s ∈ mutator → s ∈ all) →
  Forall (fromAssignment all) (changes st) →
  Forall (fromAssignment all) (changes (snd (runMutator root st mutator)))
  ∧ (length (changes (snd (runMutator root st mutator)))
     ≤ length (changes st) + length mutator)%nat.
Proof.
  induction mutator as [|s mutator IH]; intros st Hsub Hst; simpl.
  - split; [done | lia].
  - assert (Hs : s ∈ all) by (apply Hsub; by left).
    assert (Hstep : Forall (fromAssignment all)
                      (changes (snd (runStmt root st s)))
                    ∧ (length (changes (snd (runStmt root st s)))
                       ≤ S (length (changes st)))%nat).
    { destruct s as [objPath prop value|e]; simpl; [|split; [done|lia]].
      destruct (resolve (heap st) (Proxied root []) objPath)
        as [[target path|v]|e] eqn:Hresolve; simpl.
      - apply resolve_path in Hresolve as ->. simpl.
        destruct (strict_neq (getProp (heap st) target prop) value) eqn:Hneq;
          [|split; [done|lia]].
        split; [|rewrite length_app; simpl; lia].
        apply Forall_app. split; [done|]. apply Forall_singleton.
        by exists objPath, prop, value.
      - destruct v; simpl; split; done || lia.
      - split; [done|lia]. }
    destruct Hstep as [Hall Hlen].
    destruct (runStmt root st s) as [[[]|e] st']; simpl in *.
    + destruct (IH st') as [Hall' Hlen']; [|done|].
      { intros s' Hs'. apply Hsub. by right. }
      split; [done | lia].
    + split; [done | lia].
Qed.

(** X16. Every change that [mutate] tracks comes from an assignment of the
    mutator through the draft: its path is the path of the assigned
    property from the root of the draft, its new value is the assigned
    value, and this value differs from the old one by [!==].  There are no
    more changes than statements. *)
Theorem mutate_tracks_assignments
    (call : loc → Heap → Heap * Outcome unit) (world : World) (h : Heap)
    (entity : loc) (mutator : list Stmt) (operationName : option string) :
  Forall (fromAssignment mutator)
         (tracked (mutate call world h entity mutator operationName))
  ∧ (length (tracked (mutate call world h entity mutator operationName))
     ≤ length mutator)%nat.
Proof.
  assert (Htracked : tracked (mutate call world h entity mutator operationName)
                     = changes (snd (snd (draftRun h entity mutator)))).
  { unfold mutate.
    destruct (draftRun h entity mutator) as [target [[[]|e] st]];
      cbn [fst snd]; [|done].
    case_bool_decide; [done|].
    destruct (getProp (heap st) entity "save") as [| | | | |f]; try done.
    destruct (isFunction (heap st) (VRef f)); [|done].
    by destruct (call f (heap st)). }
  rewrite Htracked.
  destruct (draftRun_start h entity mutator) as (h2 & -> & _ & _).
  cbn [fst snd].
  by apply (runMutator_changes mutator).
Qed.
End DraftReach.

(** ** Entity instances: createEntityInstance, update, loadEntityInstance *)

Section EntityInstances.
Import JS Forge Draft Entities Samples MoreSamples.
Local Set Warnings "-clear-no-such-hyp".

Lemma isMethodName_spec (k : string) :
  isMethodName k = true ↔ k = "save" ∨ k = "update" ∨ k = "delete".
Proof.
  unfold isMethodName. rewrite !orb_true_iff, !bool_decide_eq_true. tauto.
Qed.

(** What [createEntityInstance] builds: four new objects, the instance
    holding the data with the three methods laid over it. *)
Lemma createEntityInstance_spec h closures entity data :
  ∃ inst save update delete h' closures',
    createEntityInstance h closures entity data = (inst, h', closures')
    ∧ h !! inst = None ∧ h !! save = None ∧ h !! update = None
    ∧ h !! delete = None
    ∧ inst ≠ save ∧ inst ≠ update ∧ inst ≠ delete
    ∧ h' !! inst
      = Some {| obj_kind := KObject;
                obj_props := <["delete" := VRef delete]>
                               (<["update" := VRef update]>
                                  (<["save" := VRef save]> data)) |}
    ∧ h' !! save = Some functionObject
    ∧ h' !! update = Some functionObject
    ∧ h' !! delete = Some functionObject
    ∧ (∀ a, is_Some (h !! a) → h' !! a = h !! a)
    ∧ closures' !! save
      = Some (SaveBody (row_name (ent_row entity)) inst)
    ∧ closures' !! update = Some (UpdateBody inst)
    ∧ closures' !! delete
      = Some (DeleteBody (row_name (ent_row entity)) inst).
Proof.
  unfold createEntityInstance, alloc, defineProp, spreadOver. cbn zeta.
  set (instance := fresh (dom h)).
  set (h0 := <[instance := _]> h).
  set (inst := fresh (dom h0)).
  assert (Hp0 : propsOf h0 instance = ∅).
  { unfold propsOf, h0. by rewrite lookup_insert_eq. }
  rewrite Hp0, (right_id_L ∅ (∪)).
  set (h1 := <[inst := _]> h0).
  set (save := fresh (dom h1)).
  set (h2 := <[save := functionObject]> h1).
  assert (Hi0 : instance ∉ dom h) by apply is_fresh.
  assert (Hi1 : inst ∉ dom h0) by apply is_fresh.
  assert (Hi2 : save ∉ dom h1) by apply is_fresh.
  assert (Hd0 : dom h0 = {[instance]} ∪ dom h) by apply dom_insert_L.
  assert (Hd1 : dom h1 = {[inst]} ∪ dom h0) by apply dom_insert_L.
  assert (Hd2 : dom h2 = {[save]} ∪ dom h1) by apply dom_insert_L.
  assert (Hne1 : inst ≠ save) by (intros Heq; apply Hi2; set_solver).
  assert (Hk2 : kindOf h2 inst = KObject).
  { unfold kindOf, h2, h1.
    by rewrite lookup_insert_ne, lookup_insert_eq by done. }
  assert (Hp2 : propsOf h2 inst = data).
  { unfold propsOf, h2, h1.
    by rewrite lookup_insert_ne, lookup_insert_eq by done. }
  rewrite Hk2, Hp2.
  set (h3 := <[inst := _]> h2).
  set (update := fresh (dom h3)).
  set (h4 := <[update := functionObject]> h3).
  assert (Hi3 : update ∉ dom h3) by apply is_fresh.
  assert (Hd3 : dom h3 = {[inst]} ∪ dom h2) by apply dom_insert_L.
  assert (Hd4 : dom h4 = {[update]} ∪ dom h3) by apply dom_insert_L.
  assert (Hne2 : inst ≠ update) by (intros Heq; apply Hi3; set_solver).
  assert (Hne3 : save ≠ update) by (intros Heq; apply Hi3; set_solver).
  assert (Hk4 : kindOf h4 inst = KObject).
  { unfold kindOf, h4, h3.
    by rewrite lookup_insert_ne, lookup_insert_eq by done. }
  assert (Hp4 : propsOf h4 inst = <["save" := VRef save]> data).
  { unfold propsOf, h4, h3.
    by rewrite lookup_insert_ne, lookup_insert_eq by done. }
  rewrite Hk4, Hp4.
  set (h5 := <[inst := _]> h4).
  set (delete := fresh (dom h5)).
  set (h6 := <[delete := functionObject]> h5).
  assert (Hi5 : delete ∉ dom h5) by apply is_fresh.
  assert (Hd5 : dom h5 = {[inst]} ∪ dom h4) by apply dom_insert_L.
  assert (Hne4 : inst ≠ delete) by (intros Heq; apply Hi5; set_solver).
  assert (Hne5 : save ≠ delete) by (intros Heq; apply Hi5; set_solver).
  assert (Hne6 : update ≠ delete) by (intros Heq; apply Hi5; set_solver).
  assert (Hk6 : kindOf h6 inst = KObject).
  { unfold kindOf, h6, h5.
    by rewrite lookup_insert_ne, lookup_insert_eq by done. }
  assert (Hp6 : propsOf h6 inst
                = <["update" := VRef update]> (<["save" := VRef save]> data)).
  { unfold propsOf, h6, h5.
    by rewrite lookup_insert_ne, lookup_insert_eq by done. }
  rewrite Hk6, Hp6.
  exists inst, save, update, delete. eexists _, _.
  split; [reflexivity|].
  assert (Hfresh : ∀ x, x ∈ dom h5 ∨ x = delete → x ∉ dom h → h !! x = None).
  { intros x _ Hx. by apply not_elem_of_dom. }
  split_and!.
  - apply not_elem_of_dom. set_solver.
  - apply not_elem_of_dom. set_solver.
  - apply not_elem_of_dom. set_solver.
  - apply not_elem_of_dom. set_solver.
  - done.
  - done.
  - done.
  - apply lookup_insert_eq.
  - rewrite lookup_insert_ne by done. unfold h6, h5, h4, h3, h2.
    by rewrite !lookup_insert_ne, lookup_insert_eq by done.
  - rewrite lookup_insert_ne by done. unfold h6, h5, h4.
    by rewrite !lookup_insert_ne, lookup_insert_eq by done.
  - rewrite lookup_insert_ne by done. unfold h6. apply lookup_insert_eq.
  - intros a Ha. apply elem_of_dom in Ha.
    assert (a ≠ instance) by (intros ->; done).
    assert (a ≠ inst) by (intros ->; apply Hi1; set_solver).
    assert (a ≠ save) by (intros ->; apply Hi2; set_solver).
    assert (a ≠ update) by (intros ->; apply Hi3; set_solver).
    assert (a ≠ delete) by (intros ->; apply Hi5; set_solver).
    unfold h6, h5, h4, h3, h2, h1, h0.
    by rewrite !lookup_insert_ne by done.
  - by rewrite !lookup_insert_ne, lookup_insert_eq by done.
  - by rewrite lookup_insert_ne, lookup_insert_eq by done.
  - apply lookup_insert_eq.
Qed.

(** X17. The instance that [createEntityInstance] returns is a new object
    that holds the data, except under the names [save], [update] and
    [delete]: there it holds three new function objects, whatever the data
    has under these names.  No object that existed before is changed. *)
Theorem createEntityInstance_methods_over_data h closures entity data :
  let inst := (createEntityInstance h closures entity data).1.1 in
  let h' := (createEntityInstance h closures entity data).1.2 in
  h !! inst = None
  ∧ (∀ k, isMethodName k = false →
          getProp h' inst k = default VUndefined (data !! k))
  ∧ (∀ k, isMethodName k = true →
          ∃ f, getProp h' inst k = VRef f
               ∧ h !! f = None
               ∧ isFunction h' (VRef f) = true)
  ∧ (∀ a, is_Some (h !! a) → h' !! a = h !! a).
Proof.
  destruct (createEntityInstance_spec h closures entity data)
    as (inst & save & update & delete & h' & closures' & -> & Hi & Hs & Hu
        & Hd & _ & _ & _ & Hinst & Hsave & Hupdate & Hdelete & Hold & _).
  cbn [fst snd]. split_and!; [done | | | done].
  - intros k Hk. unfold getProp, propsOf. rewrite Hinst; simpl.
    assert (Hnot : ¬ (k = "save" ∨ k = "update" ∨ k = "delete")).
    { rewrite <- isMethodName_spec. by rewrite Hk. }
    by rewrite !lookup_insert_ne by (intros <-; tauto).
  - intros k Hk. apply isMethodName_spec in Hk.
    unfold getProp, propsOf, isFunction, kindOf. rewrite Hinst; simpl.
    destruct Hk as [-> | [-> | ->]].
    + exists save. rewrite !lookup_insert_ne, lookup_insert_eq by done.
      by rewrite Hsave.
    + exists update. rewrite lookup_insert_ne, lookup_insert_eq by done.
      by rewrite Hupdate.
    + exists delete. rewrite lookup_insert_eq. by rewrite Hdelete.
Qed.

(** X18. The [update] method always starts from the instance that
    [createEntityInstance] built: [update] called on the result of an
    earlier [update] gives the new data laid over that first instance, so a
    property that only the earlier update set reads as the first instance
    has it.  The first instance itself is not changed. *)
Theorem update_starts_from_first_instance h closures entity data d1 d2 :
  let inst := (createEntityInstance h closures entity data).1.1 in
  let h1 := (createEntityInstance h closures entity data).1.2 in
  let closures1 := (createEntityInstance h closures entity data).2 in
  d1 !! "update" = None →
  ∃ u1 h2 u2 h3,
    callMethod h1 closures1 inst "update" d1 = Some (Returns (VRef u1), h2)
    ∧ propsOf h2 u1 = d1 ∪ propsOf h1 inst
    ∧ callMethod h2 closures1 u1 "update" d2 = Some (Returns (VRef u2), h3)
    ∧ propsOf h3 u2 = d2 ∪ propsOf h1 inst
    ∧ (∀ k, d2 !! k = None → getProp h3 u2 k = getProp h1 inst k)
    ∧ h3 !! inst = h1 !! inst.
Proof.
  destruct (createEntityInstance_spec h closures entity data)
    as (inst & save & update & delete & h1 & closures1 & -> & _ & _ & _
        & _ & _ & Hne & _ & Hinst & _ & Hupdate & _ & _ & _ & Hbody & _).
  cbn [fst snd]. intros Hd1.
  assert (Hget1 : getProp h1 inst "update" = VRef update).
  { unfold getProp, propsOf. rewrite Hinst; simpl.
    by rewrite lookup_insert_ne, lookup_insert_eq by done. }
  assert (Hfun1 : isFunction h1 (VRef update) = true).
  { unfold isFunction, kindOf. by rewrite Hupdate. }
  set (u1 := fresh (dom h1)).
  set (o1 := {| obj_kind := KObject;
                obj_props := spreadOver (propsOf h1 inst) d1 |}).
  set (h2 := <[u1 := o1]> h1).
  assert (Hu1 : h1 !! u1 = None) by apply (alloc_new h1 o1).
  assert (Hold1 : ∀ a, is_Some (h1 !! a) → h2 !! a = h1 !! a)
    by (intros a Ha; apply (alloc_lookup_old h1 o1 a Ha)).
  assert (Hp1 : propsOf h2 u1 = d1 ∪ propsOf h1 inst).
  { unfold propsOf at 1, h2. by rewrite lookup_insert_eq. }
  assert (Hget2 : getProp h2 u1 "update" = VRef update).
  { unfold getProp. rewrite Hp1, lookup_union_r by done. exact Hget1. }
  assert (Hfun2 : isFunction h2 (VRef update) = true).
  { unfold isFunction, kindOf. rewrite Hold1 by (by rewrite Hupdate).
    by rewrite Hupdate. }
  assert (Hinst2 : h2 !! inst = h1 !! inst)
    by (apply Hold1; by rewrite Hinst).
  set (u2 := fresh (dom h2)).
  set (o2 := {| obj_kind := KObject;
                obj_props := spreadOver (propsOf h2 inst) d2 |}).
  set (h3 := <[u2 := o2]> h2).
  assert (Hp2 : propsOf h3 u2 = d2 ∪ propsOf h1 inst).
  { unfold propsOf at 1, h3. rewrite lookup_insert_eq. simpl.
    unfold spreadOver. by rewrite (propsOf_lookup_eq h1 h2 inst Hinst2). }
  exists u1, h2, u2, h3. split_and!.
  - unfold callMethod. rewrite Hget1, Hfun1. unfold callClosure.
    by rewrite Hbody.
  - exact Hp1.
  - unfold callMethod. rewrite Hget2, Hfun2. unfold callClosure.
    by rewrite Hbody.
  - exact Hp2.
  - intros k Hk. unfold getProp. by rewrite Hp2, lookup_union_r.
  - rewrite <- Hinst2. apply (alloc_lookup_old h2 o2 inst).
    by rewrite Hinst2, Hinst.
Qed.

Lemma update_starts_from_first_instance_witness :
  ∃ u1 h2 u2 h3,
    callMethod (createEntityInstance ∅ ∅ personEntity johnData).1.2
      (createEntityInstance ∅ ∅ personEntity johnData).2
      (createEntityInstance ∅ ∅ personEntity johnData).1.1
      "update" {[ "age" := VNumber 31%float ]}
    = Some (Returns (VRef u1), h2)
    ∧ callMethod h2 (createEntityInstance ∅ ∅ personEntity johnData).2
        u1 "update" {[ "name" := VString "Jon" ]}
      = Some (Returns (VRef u2), h3)
    ∧ getProp h3 u2 "age" = VNumber 30%float.
Proof.
  destruct (update_starts_from_first_instance ∅ ∅ personEntity johnData
              {[ "age" := VNumber 31%float ]} {[ "name" := VString "Jon" ]})
    as (u1 & h2 & u2 & h3 & H1 & _ & H2 & _ & Hk & _).
  - reflexivity.
  - exists u1, h2, u2, h3. split_and!; [exact H1 | exact H2 |].
    rewrite Hk by reflexivity. vm_compute. reflexivity.
Defined.

(** X19. [loadEntityInstance] refuses the ids [null] and [undefined], with
    an error that names the row of the entity.  For every other id it
    evaluates [String(id)]: this returns for every primitive id, so 0, the
    empty string and [false] give an instance that holds the three methods
    and no data, whatever the id; for an id that is an object the conversion
    is the object's own, and when it throws, the promise is rejected with
    what it threw and no instance is made. *)
Theorem loadEntityInstance_refuses_null_ids stringOf h closures entity id :
  (id = VNull ∨ id = VUndefined →
     loadEntityInstance stringOf h closures entity id
     = CannotLoad (row_name (ent_row entity)))
  ∧ (id ≠ VNull → id ≠ VUndefined →
     (∀ a, id = VRef a → ∃ text, stringOf a = Returns text) →
     ∃ inst h' closures',
       loadEntityInstance stringOf h closures entity id
       = LoadedInstance inst h' closures'
       ∧ (inst, h', closures') = createEntityInstance h closures entity ∅
       ∧ ∀ k, isMethodName k = false → getProp h' inst k = VUndefined)
  ∧ (∀ a e, id = VRef a → stringOf a = Throws e →
       loadEntityInstance stringOf h closures entity id = Rejected e).
Proof.
  split_and!.
  - by intros [-> | ->].
  - intros Hnull Hundef Hstring. unfold loadEntityInstance.
    assert (Hid : strict_eq id VNull || strict_eq id VUndefined = false).
    { destruct id; try done. }
    rewrite Hid.
    assert (Hreturns : ∃ text, match id with
                               | VRef a => stringOf a
                               | _ => Returns ""
                               end = Returns text).
    { destruct id; try (by eexists). by apply Hstring. }
    destruct Hreturns as [text ->].
    destruct (createEntityInstance_spec h closures entity ∅)
      as (inst & save & update & delete & h' & closures' & -> & _ & _ & _
          & _ & _ & _ & _ & Hinst & _).
    exists inst, h', closures'. split_and!; [done | done |].
    intros k Hk. unfold getProp, propsOf. rewrite Hinst; simpl.
    assert (Hnot : ¬ (k = "save" ∨ k = "update" ∨ k = "delete")).
    { rewrite <- isMethodName_spec. by rewrite Hk. }
    by rewrite !lookup_insert_ne by (intros <-; tauto).
  - intros a e -> Hthrows. unfold loadEntityInstance. simpl.
    by rewrite Hthrows.
Qed.

Lemma assigned_over (mutator : list Stmt) : ∀ m : gmap string Value,
  foldl (λ m s, match s with
                | Assign [] prop value => <[prop := value]> m
                | _ => m
                end) m mutator
  = assigned mutator ∪ m.
Proof.
  unfold assigned.
  induction mutator as [|s mutator IH] using rev_ind; intros m.
  - simpl. by rewrite (left_id_L ∅ (∪)).
  - rewrite !foldl_app. simpl. rewrite IH.
    destruct s as [[|? ?] prop value|e]; try done.
    by rewrite insert_union_l.
Qed.

(** X20. [mutate] on an instance made by [createEntityInstance], with a
    mutator that assigns to properties of the draft, under names that
    objects do not inherit from [Object.prototype]: it either records no
    change and resolves to the instance, calling nothing, or it calls the
    [save] method of the instance once and resolves to the draft.  Either
    way the instance keeps the values it had, and the assigned values are
    in the draft only, laid over those of the instance. *)
Theorem mutate_created_instance
    (call : loc → Heap → Heap * Outcome unit) (world : World) (h : Heap)
    (closures : Closures) (entity : Entity) (data : gmap string Value)
    (mutator : list Stmt) (operationName : option string) :
  let inst := (createEntityInstance h closures entity data).1.1 in
  let h1 := (createEntityInstance h closures entity data).1.2 in
  let closures1 := (createEntityInstance h closures entity data).2 in
  let r := mutate call world h1 inst mutator operationName in
  (∀ f name h', closures1 !! f = Some (SaveBody name inst) →
                call f h' = (h', Returns ())) →
  Forall topLevel mutator →
  Forall ownName mutator →
  (settled r = Returns (Plain (VRef inst)) ∧ called r = [] ∧ tracked r = []
   ∨ ∃ save,
       settled r = Returns (Proxied (fresh (dom h1)) [])
       ∧ called r = [save]
       ∧ closures1 !! save
         = Some (SaveBody (row_name (ent_row entity)) inst)
       ∧ tracked r ≠ [])
  ∧ propsOf (finalHeap r) inst = propsOf h1 inst
  ∧ propsOf (finalHeap r) (fresh (dom h1)) = assigned mutator ∪ propsOf h1 inst.
Proof.
  destruct (createEntityInstance_spec h closures entity data)
    as (inst & save & update & delete & h1 & closures1 & -> & _ & _ & _
        & _ & _ & _ & _ & Hinst & Hsave & _ & _ & _ & Hbody & _).
  cbn [fst snd]. intros Hcall Htop Hown. unfold mutate.
  destruct (draftRun_start h1 inst mutator) as (h2 & -> & Htarget & Hold).
  destruct (runMutator_topLevel (fresh (dom h1)) mutator
              {| heap := h2; changes := []; trapWrites := [] |} Htop)
    as (Hret & Hother).
  assert (Hnames : Forall (λ s, ∀ objPath value,
                               s ≠ Assign objPath "__proto__" value) mutator).
  { eapply Forall_impl; [exact Hown|].
    intros s Hs objPath value ->. apply Hs.
    simpl. unfold objectPrototypeNames.
    repeat (apply elem_of_cons; first [by left | right]). }
  pose proof (runMutator_topLevel_props (fresh (dom h1)) mutator
                {| heap := h2; changes := []; trapWrites := [] |} Htop Hnames)
    as Hprops.
  cbn [heap] in Hother, Hprops.
  assert (Hfresh : ∀ a, is_Some (h1 !! a) → a ≠ fresh (dom h1)).
  { intros a [o Ho] ->.
    by rewrite (not_elem_of_dom_1 h1 _ (is_fresh (dom h1))) in Ho. }
  destruct (runMutator (fresh (dom h1)) _ mutator) as [out st].
  cbn [fst snd] in *. subst out.
  assert (Hinst' : heap st !! inst = h1 !! inst).
  { rewrite Hother by (apply Hfresh; by rewrite Hinst).
    apply Hold. by rewrite Hinst. }
  assert (Hsave' : heap st !! save = h1 !! save).
  { rewrite Hother by (apply Hfresh; by rewrite Hsave).
    apply Hold. by rewrite Hsave. }
  assert (Hkeeps : propsOf (heap st) inst = propsOf h1 inst)
    by (by apply propsOf_lookup_eq).
  assert (Hdraft : propsOf (heap st) (fresh (dom h1))
                   = assigned mutator ∪ propsOf h1 inst).
  { rewrite Hprops, assigned_over. f_equal.
    unfold propsOf at 1. by rewrite Htarget. }
  case_bool_decide as Hnone.
  - cbn [settled called tracked finalHeap]. split_and!; [|done|done].
    left. split_and!; [done | done |]. by apply nil_length_inv.
  - assert (Hget : getProp (heap st) inst "save" = VRef save).
    { unfold getProp. rewrite Hkeeps. unfold propsOf. rewrite Hinst; simpl.
      by rewrite !lookup_insert_ne, lookup_insert_eq by done. }
    rewrite Hget.
    assert (Hfun : isFunction (heap st) (VRef save) = true).
    { unfold isFunction, kindOf. by rewrite Hsave', Hsave. }
    rewrite Hfun, (Hcall save _ (heap st) Hbody).
    cbn [settled called tracked finalHeap]. split_and!; [|done|done].
    right. exists save. split_and!; [done | done | done |].
    intros Hnil. apply Hnone. by rewrite Hnil.
Qed.

Lemma mutate_created_instance_witness :
  settled (mutate noEffect emptyWorld
             (createEntityInstance ∅ ∅ personEntity johnData).1.2
             (createEntityInstance ∅ ∅ personEntity johnData).1.1
             birthday None)
    ≠ Throws TypeError
  ∧ getProp (finalHeap (mutate noEffect emptyWorld
               (createEntityInstance ∅ ∅ personEntity johnData).1.2
               (createEntityInstance ∅ ∅ personEntity johnData).1.1
               birthday None))
      (createEntityInstance ∅ ∅ personEntity johnData).1.1 "age"
    = VNumber 30%float.
Proof.
  destruct (mutate_created_instance noEffect emptyWorld ∅ ∅ personEntity
              johnData birthday None) as (Hsettled & Hkeeps & _).
  - intros f name h' _. reflexivity.
  - repeat constructor.
  - repeat constructor. simpl. intros Hin.
    repeat (apply elem_of_cons in Hin as [Hin|Hin]; [discriminate|]).
    by apply elem_of_nil in Hin.
  - split.
    + destruct Hsettled as [(-> & _) | (save & -> & _)]; discriminate.
    + unfold getProp. rewrite Hkeeps. vm_compute. reflexivity.
Defined.
End EntityInstances.
